(** * The Subtract operation node of the graph engine (src/ops/subtract.ts)

    A shallow embedding of the [Subtract] class: its constructor,
    [feedForward], [backProp] and [dispose], over explicit models of the
    collaborators it calls (util, graph, graph_util, TensorArrayMap,
    NDArray and the scoped allocator of NDArrayMath). *)

From Stdlib Require Import QArith.
From stdpp Require Import base option list gmap.

Set Default Proof Using "Type".

(** ** Element arithmetic of the numeric backend

    The kernels work on Float32 buffers.  The node never inspects an element;
    it only routes buffers through kernels, so the embedding is parametric in
    the element type and its operations. *)
Class Arith (T : Type) := {
  num_zero : T;
  num_add : T → T → T;
  num_sub : T → T → T;
  num_neg : T → T;
  num_div : T → T → T;
  num_of_size : nat → T;
}.

(** Exact rational arithmetic, kept in lowest terms so that results can be
    compared with [=]. *)
#[export] Instance Q_arith : Arith Q := {|
  num_zero := 0%Q;
  num_add x y := Qred (x + y);
  num_sub x y := Qred (x - y);
  num_neg x := Qred (- x);
  num_div x y := Qred (x / y);
  num_of_size n := inject_Z (Z.of_nat n);
|}.

(** ** util *)
Module util.

(** Modelled from the spec: util.sizeFromShape is not part of the sources at
    hand.  The element count a shape denotes: the product of its
    dimensions, 1 for rank 0. *)
Definition sizeFromShape (shape : list nat) : nat := foldr Nat.mul 1 shape.

(** Modelled from the spec: util.isScalarShape is not part of the sources at
    hand.  "Given a shape, returns whether it denotes a scalar (exactly one
    element, any rank)." *)
Definition isScalarShape (shape : list nat) : bool :=
  sizeFromShape shape =? 1.

(** Modelled from the spec: util.arraysEqual is not part of the sources at
    hand.  Same length and the same number at every index. *)
Fixpoint arraysEqual (n1 n2 : list nat) : bool :=
  match n1, n2 with
  | [], [] => true
  | x :: n1', y :: n2' => (x =? y) && arraysEqual n1' n2'
  | _, _ => false
  end.

End util.

(** ** graph *)
Module graph.

(** Modelled from the spec: the Tensor class of graph.ts is not part of the
    sources at hand.  A tensor handle: an identity and a shape (an ordered
    sequence of non-negative integers), no data; handles are told apart by
    their identity. *)
Record Tensor := mkTensor { id : nat; shape : list nat }.

End graph.

(** ** graph_util *)

(** Modelled from the spec: graph_util.shouldBackProp is not part of the
    sources at hand.  The driver's answer to "does this input require a
    gradient", a boolean per tensor handle; taken as a parameter. *)
Class GraphUtil := { shouldBackProp : graph.Tensor → bool }.

(** ** Outcomes of a call *)
Inductive Error := ShapeMismatchError | MissingValueError | MissingGradientError.

Inductive Result (A : Type) :=
  | Ok (a : A)
  | Throw (e : Error).
Arguments Ok {A} a.
Arguments Throw {A} e.

Definition is_ok {A} (r : Result A) : bool :=
  match r with Ok _ => true | Throw _ => false end.

(** Modelled from the spec: util.assert is not part of the sources at hand.
    Fails with the given error unless the condition holds. *)
Definition assert (cond : bool) (e : Error) : Result unit :=
  if cond then Ok tt else Throw e.

Section model.
Context {T : Type} {arith : Arith T}.

(** ** NDArray

    An array object: [ident] is the object's identity (two references are
    aliases iff they carry the same [ident]); the buffer never changes after
    construction, so a reference carries shape and elements with it. *)
Record NDArray := mkNDArray {
  ident : nat;
  shape : list nat;
  values : list T;
}.

(** Modelled from the spec: NDArray.size is not part of the sources at hand.
    The total element count of the array. *)
Definition size (a : NDArray) : nat := util.sizeFromShape (shape a).

(** Modelled from the spec: NDArray.get is not part of the sources at hand.
    The value of a scalar array: the first element of its buffer. *)
Definition get (a : NDArray) : T := hd num_zero (values a).

(** The buffer holds as many elements as the shape denotes. *)
Definition well_formed (a : NDArray) : Prop := length (values a) = size a.

(** ** The node and the world it runs in *)
Record Subtract := mkSubtract {
  dySizeScalar : option NDArray;
  t1 : graph.Tensor;
  t2 : graph.Tensor;
  outTensor : graph.Tensor;
}.

Inductive MapName := inferenceMap | gradientMap.

(** What a call does to the outside: [dispose] calls on arrays and [set]
    calls on a value map, newest first. *)
Inductive Event :=
  | EvDispose (a : NDArray)
  | EvSet (m : MapName) (key : nat) (a : NDArray).

(** One allocation scope of NDArrayMath: the arrays it tracks and the ones
    exempted from its cleanup, both in call order. *)
Record Scope := mkScope {
  tracked : list NDArray;
  toKeep : list NDArray;
}.

Record World := mkWorld {
  this : Subtract;
  scopes : list Scope;
  inferenceArrays : gmap nat NDArray;
  gradientArrays : gmap nat NDArray;
  nextId : nat;
  trace : list Event;
}.

Definition set_this (f : Subtract → Subtract) (w : World) : World :=
  mkWorld (f (this w)) (scopes w) (inferenceArrays w) (gradientArrays w)
          (nextId w) (trace w).
Definition set_scopes (f : list Scope → list Scope) (w : World) : World :=
  mkWorld (this w) (f (scopes w)) (inferenceArrays w) (gradientArrays w)
          (nextId w) (trace w).
Definition set_nextId (f : nat → nat) (w : World) : World :=
  mkWorld (this w) (scopes w) (inferenceArrays w) (gradientArrays w)
          (f (nextId w)) (trace w).
Definition emit (e : Event) (w : World) : World :=
  mkWorld (this w) (scopes w) (inferenceArrays w) (gradientArrays w)
          (nextId w) (e :: trace w).

Definition the_map (m : MapName) (w : World) : gmap nat NDArray :=
  match m with
  | inferenceMap => inferenceArrays w
  | gradientMap => gradientArrays w
  end.
Definition set_map (m : MapName) (f : gmap nat NDArray → gmap nat NDArray)
    (w : World) : World :=
  match m with
  | inferenceMap =>
      mkWorld (this w) (scopes w) (f (inferenceArrays w)) (gradientArrays w)
              (nextId w) (trace w)
  | gradientMap =>
      mkWorld (this w) (scopes w) (inferenceArrays w) (f (gradientArrays w))
              (nextId w) (trace w)
  end.

(** ** Calls: world passing with exceptions

    A call maps the world to an outcome and the world it leaves behind; a
    thrown error keeps every effect made before it. *)
Definition M (A : Type) : Type := World → Result A * World.

Definition ret {A} (a : A) : M A := λ w, (Ok a, w).
Definition bind {A B} (m : M A) (f : A → M B) : M B := λ w,
  match m w with
  | (Ok a, w') => f a w'
  | (Throw e, w') => (Throw e, w')
  end.

#[local] Instance M_ret : MRet M := @ret.
#[local] Instance M_bind : MBind M := λ A B f m, bind m f.

(** One call after the other, as the driver issues them. *)
Definition andThen {A B} (m : M A) (k : M B) : M B := bind m (λ _, k).

Definition gets {A} (f : World → A) : M A := λ w, (Ok (f w), w).
Definition modify (f : World → World) : M unit := λ w, (Ok tt, f w).

(** ** NDArray construction and disposal *)

(** Modelled from the spec: the NDArray constructor is not part of the sources
    at hand.  A new array object with a fresh identity; no scope tracks an
    array made this way. *)
Definition NDArray_new (sh : list nat) (vs : list T) : M NDArray := λ w,
  (Ok (mkNDArray (nextId w) sh vs), set_nextId S w).

(** Modelled from the spec: Scalar.new is not part of the sources at hand.
    A new rank-0 array holding the one value. *)
Definition Scalar_new (v : T) : M NDArray := NDArray_new [] [v].

(** Modelled from the spec: NDArray.dispose is not part of the sources at
    hand.  Releases the array's buffer; every call is recorded. *)
Definition NDArray_dispose (a : NDArray) : M unit := modify (emit (EvDispose a)).

(** ** TensorArrayMap *)

Definition missing (m : MapName) : Error :=
  match m with
  | inferenceMap => MissingValueError
  | gradientMap => MissingGradientError
  end.

(** Modelled from the spec: TensorArrayMap.get is not part of the sources at
    hand.  The entry under the handle; failure if absent. *)
Definition TensorArrayMap_get (m : MapName) (t : graph.Tensor) : M NDArray :=
  λ w, match the_map m w !! graph.id t with
       | Some a => (Ok a, w)
       | None => (Throw (missing m), w)
       end.

(** Modelled from the spec: TensorArrayMap.set is not part of the sources at
    hand.  Writes the entry under the handle, overwriting an older one. *)
Definition TensorArrayMap_set (m : MapName) (t : graph.Tensor) (a : NDArray)
    : M unit :=
  modify (λ w, emit (EvSet m (graph.id t) a)
                    (set_map m (insert (graph.id t) a) w)).

(** ** NDArrayMath: scoped allocation *)

(** Is the array object [a] one of the objects of [l]. *)
Definition in_list (a : NDArray) (l : list NDArray) : bool :=
  existsb (λ b, ident b =? ident a) l.

(** Modelled from the spec: NDArrayMath.track is not part of the sources at
    hand.  Every array the backend produces is tracked by the enclosing
    scope. *)
Definition track (a : NDArray) : M NDArray := λ w,
  (Ok a, set_scopes (λ ss, match ss with
                           | [] => []
                           | s :: ss' => mkScope (tracked s ++ [a]) (toKeep s) :: ss'
                           end) w).

(** Modelled from the spec: the keep function of a scope is not part of the
    sources at hand.  Exempts the array from the cleanup of the active
    scope and hands it back. *)
Definition keep (a : NDArray) : M NDArray := λ w,
  (Ok a, set_scopes (λ ss, match ss with
                           | [] => []
                           | s :: ss' => mkScope (tracked s) (toKeep s ++ [a]) :: ss'
                           end) w).

(** Modelled from the spec: scope entry is not part of the sources at hand.
    Opens an empty scope on top of the enclosing ones. *)
Definition startScope (w : World) : World :=
  set_scopes (cons (mkScope [] [])) w.

(** Modelled from the spec: the cleanup of a scope is not part of the sources
    at hand.  Disposes, in allocation order, the tracked arrays not marked
    keep. *)
Fixpoint disposeAll (l keepers : list NDArray) (w : World) : World :=
  match l with
  | [] => w
  | a :: l' =>
      disposeAll l' keepers
        (if in_list a keepers then w else (NDArray_dispose a w).2)
  end.

(** Modelled from the spec: scope exit is not part of the sources at hand.
    Releases what the active scope tracks, except the kept arrays, and
    returns to the enclosing scope. *)
Definition endScope (w : World) : World :=
  match scopes w with
  | [] => w
  | s :: ss' => set_scopes (λ _, ss') (disposeAll (tracked s) (toKeep s) w)
  end.

(** Modelled from the spec: NDArrayMath.scope is not part of the sources at
    hand.  Runs the body in a new scope and cleans the scope up on every
    exit path. *)
Definition scope {A} (scopeFn : (NDArray → M NDArray) → M A) : M A := λ w,
  let '(r, w') := scopeFn keep (startScope w) in (r, endScope w').

(** ** NDArrayMath: kernels

    Each kernel makes a new array and has the active scope track it. *)

(** The sum of a buffer, from the left, starting at zero. *)
Definition sum_values (vs : list T) : T := fold_left num_add vs num_zero.

(** Modelled from the spec: NDArrayMath.sub is not part of the sources at
    hand.  Elementwise subtract. *)
Definition sub (a b : NDArray) : M NDArray :=
  r ← NDArray_new (shape a) (zip_with num_sub (values a) (values b)); track r.

(** Modelled from the spec: NDArrayMath.scalarMinusArray is not part of the
    sources at hand.  The scalar broadcast against the array, scalar on the
    left; the result has the array's shape. *)
Definition scalarMinusArray (c a : NDArray) : M NDArray :=
  r ← NDArray_new (shape a) (num_sub (get c) <$> values a); track r.

(** Modelled from the spec: NDArrayMath.arrayMinusScalar is not part of the
    sources at hand.  The scalar broadcast against the array, scalar on the
    right; the result has the array's shape. *)
Definition arrayMinusScalar (a c : NDArray) : M NDArray :=
  r ← NDArray_new (shape a) ((λ x, num_sub x (get c)) <$> values a); track r.

(** Modelled from the spec: NDArrayMath.neg is not part of the sources at
    hand.  Elementwise negate. *)
Definition neg (a : NDArray) : M NDArray :=
  r ← NDArray_new (shape a) (num_neg <$> values a); track r.

(** Modelled from the spec: NDArrayMath.sum is not part of the sources at
    hand.  Sum reduction to a scalar. *)
Definition sum (a : NDArray) : M NDArray :=
  r ← Scalar_new (sum_values (values a)); track r.

(** Modelled from the spec: NDArrayMath.divide is not part of the sources at
    hand.  Division, element by element; of two scalars, a scalar. *)
Definition divide (a b : NDArray) : M NDArray :=
  r ← NDArray_new (shape a) (zip_with num_div (values a) (values b)); track r.

(** ** Subtract *)
Context {graph_util : GraphUtil}.

(** The constructor: the shape check, then a node without cached scalar. *)
Definition Subtract_new (t1 t2 outTensor : graph.Tensor) : Result Subtract :=
  match assert ((util.sizeFromShape (graph.shape t1) =? 1) ||
                (util.sizeFromShape (graph.shape t2) =? 1) ||
                util.arraysEqual (graph.shape t1) (graph.shape t2))
               ShapeMismatchError with
  | Ok _ => Ok (mkSubtract None t1 t2 outTensor)
  | Throw e => Throw e
  end.

Definition feedForward : M unit :=
  node ← gets this;
  a1 ← TensorArrayMap_get inferenceMap (t1 node);
  a2 ← TensorArrayMap_get inferenceMap (t2 node);
  scope (λ keep,
    result ← (if util.isScalarShape (shape a1) then scalarMinusArray a1 a2
              else if util.isScalarShape (shape a2) then arrayMinusScalar a1 a2
              else sub a1 a2);
    kept ← keep result;
    TensorArrayMap_set inferenceMap (outTensor node) kept).

(** [if (this.dySizeScalar == null) this.dySizeScalar = Scalar.new(dy.size)],
    followed by the read of the field. *)
Definition the_dySizeScalar (dy : NDArray) : M NDArray :=
  cached ← gets (λ w, dySizeScalar (this w));
  match cached with
  | Some s => mret s
  | None =>
      s ← Scalar_new (num_of_size (size dy));
      _ ← modify (set_this (λ node,
             mkSubtract (Some s) (t1 node) (t2 node) (outTensor node)));
      mret s
  end.

Definition backProp : M unit :=
  node ← gets this;
  dy ← TensorArrayMap_get gradientMap (outTensor node);
  scope (λ keep,
    _ ← (if shouldBackProp (t1 node) then
           if util.isScalarShape (graph.shape (t1 node)) then
             s ← sum dy;
             d ← the_dySizeScalar dy;
             q ← divide s d;
             kept ← keep q;
             TensorArrayMap_set gradientMap (t1 node) kept
           else
             kept ← keep dy;
             TensorArrayMap_set gradientMap (t1 node) kept
         else mret tt);
    if shouldBackProp (t2 node) then
      if util.isScalarShape (graph.shape (t2 node)) then
        s ← sum dy;
        negSum ← neg s;
        d ← the_dySizeScalar dy;
        q ← divide negSum d;
        kept ← keep q;
        TensorArrayMap_set gradientMap (t2 node) kept
      else
        n ← neg dy;
        kept ← keep n;
        TensorArrayMap_set gradientMap (t2 node) kept
    else mret tt).

Definition dispose : M unit :=
  cached ← gets (λ w, dySizeScalar (this w));
  match cached with
  | Some s => NDArray_dispose s
  | None => mret tt
  end.

(** ** Observations on a run *)

(** A world around a node, with the two value maps and the next free array
    identity: no scope open, nothing recorded yet. *)
Definition world_of (node : Subtract) (inf grad : gmap nat NDArray)
    (next : nat) : World :=
  mkWorld node [] inf grad next [].

Definition is_dispose_of (i : nat) (e : Event) : bool :=
  match e with
  | EvDispose a => ident a =? i
  | EvSet _ _ _ => false
  end.

Definition is_write_of (i : nat) (e : Event) : bool :=
  match e with
  | EvDispose _ => false
  | EvSet _ _ a => ident a =? i
  end.

(** How often [dispose] was called on the array with identity [i]. *)
Definition disposals (i : nat) (tr : list Event) : nat :=
  length (List.filter (is_dispose_of i) tr).

(** Was the array with identity [i] handed to a value map. *)
Definition written (i : nat) (tr : list Event) : bool :=
  existsb (is_write_of i) tr.

(** The events a call added in going from [w] to [w']. *)
Definition emitted (w w' : World) (new : list Event) : Prop :=
  trace w' = new ++ trace w.

(** The value a backward call on [w] divides by: that of the cached scalar,
    or the element count of dy when none is cached yet. *)
Definition divisor (w : World) (dy : NDArray) : T :=
  match dySizeScalar (this w) with
  | Some s => get s
  | None => num_of_size (size dy)
  end.

(** Does a scalar branch of a backward call on [w] run: the left one, the
    right one. *)
Definition left_scalar_runs (w : World) : bool :=
  shouldBackProp (t1 (this w)) &&
  util.isScalarShape (graph.shape (t1 (this w))).
Definition right_scalar_runs (w : World) : bool :=
  shouldBackProp (t2 (this w)) &&
  util.isScalarShape (graph.shape (t2 (this w))).

(** The number of array objects a backward call on [w] constructs: the sum
    and the quotient of the left scalar branch; the sum, its negation and the
    quotient of the right scalar branch, or the negation of dy of the right
    non-scalar branch; and one divisor scalar if none is cached and a scalar
    branch runs. *)
Definition backProp_allocations (w : World) : nat :=
  (if left_scalar_runs w then 2 else 0) +
  (if shouldBackProp (t2 (this w))
   then if util.isScalarShape (graph.shape (t2 (this w))) then 3 else 1
   else 0) +
  (match dySizeScalar (this w) with
   | Some _ => 0
   | None => if left_scalar_runs w || right_scalar_runs w then 1 else 0
   end).

(** The mean of dy: the sum of its elements over its element count. *)
Definition mean (dy : NDArray) : T :=
  num_div (sum_values (values dy)) (num_of_size (size dy)).

(** The cached scalar, if there is one, is a one-element array. *)
Definition cache_ok (w : World) : Prop :=
  ∀ s, dySizeScalar (this w) = Some s → values s = [get s].

(** Of the arrays allocated between [w] and [w'], those never disposed are
    exactly those handed to a value map. *)
Definition only_written_survive (w w' : World) : Prop :=
  ∃ new, emitted w w' new ∧
    ∀ i, nextId w ≤ i < nextId w' →
      (disposals i new = 0 ↔ written i new = true).

End model.

(** ** Concrete graphs and worlds *)
Module examples.

(** Drivers: every input needs a gradient; only the right-hand input (the
    handle with identity 1) does. *)
Definition every_input : GraphUtil := {| shouldBackProp _ := true |}.
Definition right_only : GraphUtil := {| shouldBackProp t := graph.id t =? 1 |}.

Definition handle (i : nat) (sh : list nat) : graph.Tensor := graph.mkTensor i sh.
Definition array (i : nat) (sh : list nat) (vs : list Q) : NDArray :=
  mkNDArray i sh vs.

(** A node over handles 0 and 1 with output handle 2. *)
Definition node (sh1 sh2 sho : list nat) : Subtract (T:=Q) :=
  mkSubtract None (handle 0 sh1) (handle 1 sh2) (handle 2 sho).

(** Forward: the arrays of handles 0 and 1 are objects 0 and 1. *)
Definition forward_world (a b : NDArray) (sho : list nat) : World :=
  world_of (node (shape a) (shape b) sho)
           (<[0 := a]> (<[1 := b]> ∅)) ∅ 2.

Definition fwd_same : World :=
  forward_world (array 0 [2] [3; 5]%Q) (array 1 [2] [1; 2]%Q) [2].
Definition fwd_left : World :=
  forward_world (array 0 [] [5]%Q) (array 1 [3] [1; 2; 3]%Q) [3].
Definition fwd_right : World :=
  forward_world (array 0 [3] [1; 2; 3]%Q) (array 1 [] [2]%Q) [3].

(** Backward: the gradient of the output handle 2 is object 0. *)
Definition backward_world (sh1 sh2 : list nat) (dy : NDArray) : World :=
  world_of (node sh1 sh2 (shape dy)) ∅ (<[2 := dy]> ∅) 1.

Definition ones : NDArray := array 0 [3] [1; 1; 1]%Q.
Definition twos : NDArray := array 0 [4] [2; 2; 2; 2]%Q.

Definition bwd_same : World := backward_world [3] [3] ones.
Definition bwd_left : World := backward_world [] [4] twos.
Definition bwd_right : World := backward_world [4] [] twos.

(** The driver stores a new, shorter upstream gradient for the output
    handle between two backward calls. *)
Definition shorter : list Q := [2; 2]%Q.
Definition store_shorter_dy : M unit :=
  bind (NDArray_new [2] shorter)
       (TensorArrayMap_set gradientMap (handle 2 [4])).

(** The world after one backward call on [bwd_left] and the new gradient. *)
Definition bwd_left_again : World :=
  (andThen (backProp (graph_util := every_input)) store_shorter_dy bwd_left).2.

(** The world after one backward call on [bwd_left]: the divisor is cached. *)
Definition bwd_left_done : World :=
  (backProp (graph_util := every_input) bwd_left).2.

(** A node whose inputs and output gradient were never stored. *)
Definition unfed : World := world_of (node [2] [2] [2]) ∅ ∅ 0.

(** A driver for which no input needs a gradient. *)
Definition no_input : GraphUtil := {| shouldBackProp _ := false |}.

(** Backward on x - x: both inputs are the handle 0. *)
Definition bwd_self : World :=
  world_of (mkSubtract None (handle 0 [3]) (handle 0 [3]) (handle 2 [3]))
           ∅ (<[2 := ones]> ∅) 1.

(** A one-element left operand of rank two, [[5]], against [1,2,3]. *)
Definition fwd_rank2 : World :=
  forward_world (array 0 [1; 1] [5]%Q) (array 1 [3] [1; 2; 3]%Q) [3].

(** Backward with a left handle of shape [1,1]. *)
Definition bwd_rank2 : World := backward_world [1; 1] [4] twos.

(** Backward with two scalar handles and a scalar dy. *)
Definition bwd_scalars : World := backward_world [] [] (array 0 [] [3]%Q).

End examples.

(** * Properties *)

(** Unfolds a method down to the primitive steps on the world. *)
Ltac unfold_calls :=
  unfold backProp, feedForward, dispose, andThen, scope, the_dySizeScalar,
    sum, neg, divide, sub, scalarMinusArray, arrayMinusScalar, Scalar_new,
    mbind, mret, M_bind, M_ret, bind, ret, gets, TensorArrayMap_get.

(** Settles the identity comparisons of a scope's cleanup. *)
Ltac decide_eqb :=
  repeat first
    [ rewrite Nat.eqb_refl
    | rewrite orb_true_r
    | match goal with
      | |- context [?x =? ?y] =>
          first [ rewrite (proj2 (Nat.eqb_eq x y)) by lia
                | rewrite (proj2 (Nat.eqb_neq x y)) by lia ]
      end
    | progress cbn ].

#[local] Arguments Nat.eqb : simpl never.

Section properties.
Context {T : Type} {arith : Arith T} {graph_util : GraphUtil}.
Implicit Types (w : World (T:=T)) (a b dy : NDArray (T:=T)).
Implicit Types (sh : list nat) (t : graph.Tensor).

(** ** Shapes *)

Lemma arraysEqual_spec (n1 n2 : list nat) :
  util.arraysEqual n1 n2 = true ↔ n1 = n2.
Proof.
  revert n2. induction n1 as [|x n1 IH]; intros [|y n2]; simpl; try done.
  rewrite andb_true_iff, Nat.eqb_eq, IH. split.
  - by intros [-> ->].
  - intros [= -> ->]. done.
Qed.

Lemma isScalarShape_ones sh :
  util.isScalarShape sh = true ↔ Forall (λ d, d = 1) sh.
Proof.
  unfold util.isScalarShape. rewrite Nat.eqb_eq.
  induction sh as [|d sh IH]; simpl.
  - split; [constructor | done].
  - rewrite Forall_cons, <- IH. split.
    + intros Hm. by apply Nat.eq_mul_1 in Hm.
    + by intros [-> ->].
Qed.

Lemma scalar_values a :
  well_formed a → util.isScalarShape (shape a) = true → values a = [get a].
Proof.
  unfold well_formed, size, util.isScalarShape, get.
  intros Hwf Hs%Nat.eqb_eq. rewrite Hs in Hwf.
  destruct (values a) as [|x [|y l]]; simpl in *; congruence.
Qed.

Lemma Subtract_new_ok_iff (t1 t2 out : graph.Tensor) :
  Subtract_new (T:=T) t1 t2 out = Ok (mkSubtract None t1 t2 out) ↔
  util.sizeFromShape (graph.shape t1) = 1 ∨
  util.sizeFromShape (graph.shape t2) = 1 ∨
  graph.shape t1 = graph.shape t2.
Proof.
  unfold Subtract_new, assert.
  rewrite <- !Nat.eqb_eq, <- arraysEqual_spec.
  destruct (_ =? 1), (_ =? 1), (util.arraysEqual _ _); simpl; intuition congruence.
Qed.

(** C4: construction fails with the shape error exactly when neither
    operand's shape has one element and the two shapes differ; in every
    other case it yields the node, without cached scalar. *)
Theorem Subtract_new_shape_check (t1 t2 out : graph.Tensor) :
  (Subtract_new (T:=T) t1 t2 out = Throw ShapeMismatchError ↔
     util.sizeFromShape (graph.shape t1) ≠ 1 ∧
     util.sizeFromShape (graph.shape t2) ≠ 1 ∧
     graph.shape t1 ≠ graph.shape t2) ∧
  (is_ok (Subtract_new (T:=T) t1 t2 out) = false ↔
     Subtract_new (T:=T) t1 t2 out = Throw ShapeMismatchError) ∧
  (is_ok (Subtract_new (T:=T) t1 t2 out) = true ↔
     util.sizeFromShape (graph.shape t1) = 1 ∨
     util.sizeFromShape (graph.shape t2) = 1 ∨
     graph.shape t1 = graph.shape t2).
Proof.
  pose proof (Subtract_new_ok_iff t1 t2 out) as Hok.
  revert Hok. unfold Subtract_new, assert.
  destruct (_ || _) eqn:E; simpl; intros Hok.
  - apply proj1 in Hok. specialize (Hok eq_refl).
    repeat split; try done; intuition congruence.
  - assert (¬ (util.sizeFromShape (graph.shape t1) = 1
               ∨ util.sizeFromShape (graph.shape t2) = 1
               ∨ graph.shape t1 = graph.shape t2)) as Hn
      by (intros Hs; apply Hok in Hs; discriminate).
    repeat split; try done; intuition congruence.
Qed.

(** ** The scope's cleanup leaves maps, node and allocator alone *)

Lemma disposeAll_frame (l keepers : list NDArray) w :
  this (disposeAll l keepers w) = this w ∧
  scopes (disposeAll l keepers w) = scopes w ∧
  inferenceArrays (disposeAll l keepers w) = inferenceArrays w ∧
  gradientArrays (disposeAll l keepers w) = gradientArrays w ∧
  nextId (disposeAll l keepers w) = nextId w.
Proof.
  revert w. induction l as [|a l IH]; intros w; simpl; [done|].
  destruct (in_list a keepers); [apply IH|].
  exact (IH (NDArray_dispose a w).2).
Qed.

Lemma endScope_frame w :
  this (endScope w) = this w ∧
  scopes (endScope w) = tail (scopes w) ∧
  inferenceArrays (endScope w) = inferenceArrays w ∧
  gradientArrays (endScope w) = gradientArrays w ∧
  nextId (endScope w) = nextId w.
Proof.
  unfold endScope. destruct (scopes w) as [|s ss] eqn:E; [by rewrite E|]. cbn.
  destruct (disposeAll_frame (tracked s) (toKeep s) w) as (? & ? & ? & ? & ?).
  done.
Qed.

(** ** Forward *)

(** C1: with both input arrays in the forward map, feedForward returns and
    stores under the output handle an array that is the elementwise
    difference when the shapes are equal, scalar minus array when only the
    left operand is scalar-shaped, array minus scalar when only the right
    one is. *)
Theorem feedForward_correct w (A B : NDArray) :
  inferenceArrays w !! graph.id (t1 (this w)) = Some A →
  inferenceArrays w !! graph.id (t2 (this w)) = Some B →
  well_formed A → well_formed B →
  ∃ R w', feedForward w = (Ok tt, w') ∧
    inferenceArrays w' =
      <[graph.id (outTensor (this w)) := R]> (inferenceArrays w) ∧
    (shape A = shape B →
       shape R = shape A ∧
       values R = zip_with num_sub (values A) (values B)) ∧
    (util.isScalarShape (shape A) = true →
     util.isScalarShape (shape B) = false →
       shape R = shape B ∧ values R = num_sub (get A) <$> values B) ∧
    (util.isScalarShape (shape A) = false →
     util.isScalarShape (shape B) = true →
       shape R = shape A ∧
       values R = (λ x, num_sub x (get B)) <$> values A).
Proof.
  intros HA HB WA WB. unfold_calls. cbn. rewrite HA, HB.
  destruct (util.isScalarShape (shape A)) eqn:EA;
    [|destruct (util.isScalarShape (shape B)) eqn:EB]; cbn.
  all: eexists (mkNDArray _ _ _), _; split; [reflexivity|].
  all: decide_eqb; split; [reflexivity|].
  - split; [|done]. intros Heq. split; [done|].
    assert (util.isScalarShape (shape B) = true) as EB by (by rewrite <- Heq).
    rewrite (scalar_values A WA EA), (scalar_values B WB EB). done.
  - split; [|done]. intros Heq. rewrite Heq in EA. congruence.
  - done.
Qed.

(** ** Backward *)

(** C2: when both inputs are non-scalar and both need a gradient, backProp
    returns having written the very array dy under the left handle and then
    a new array holding the elementwise negation of dy under the right
    handle; nothing else is written and nothing is disposed. *)
Theorem backProp_same_shape w dy :
  gradientArrays w !! graph.id (outTensor (this w)) = Some dy →
  util.isScalarShape (graph.shape (t1 (this w))) = false →
  util.isScalarShape (graph.shape (t2 (this w))) = false →
  shouldBackProp (t1 (this w)) = true →
  shouldBackProp (t2 (this w)) = true →
  ∃ n w', backProp w = (Ok tt, w') ∧
    shape n = shape dy ∧ values n = num_neg <$> values dy ∧
    gradientArrays w' =
      <[graph.id (t2 (this w)) := n]>
        (<[graph.id (t1 (this w)) := dy]> (gradientArrays w)) ∧
    trace w' = EvSet gradientMap (graph.id (t2 (this w))) n ::
               EvSet gradientMap (graph.id (t1 (this w))) dy :: trace w ∧
    (graph.id (t1 (this w)) ≠ graph.id (t2 (this w)) →
       gradientArrays w' !! graph.id (t1 (this w)) = Some dy) ∧
    gradientArrays w' !! graph.id (t2 (this w)) = Some n.
Proof.
  intros Hdy S1 S2 B1 B2. unfold_calls. cbn. rewrite Hdy, S1, S2, B1, B2. cbn.
  unfold endScope. cbn. decide_eqb.
  exists (mkNDArray (nextId w) (shape dy) (num_neg <$> values dy)).
  eexists. split; [reflexivity|]. cbn.
  repeat split.
  - intros Hne. by rewrite lookup_insert_ne, lookup_insert_eq.
  - by rewrite lookup_insert_eq.
Qed.

(** ** Events of a run *)

Lemma emitted_here (tr : list (Event (T:=T))) : tr = [] ++ tr.
Proof. done. Qed.

Lemma emitted_more (e : Event (T:=T)) l new tr :
  l = new ++ tr → e :: l = (e :: new) ++ tr.
Proof. by intros ->. Qed.

Ltac solve_emitted :=
  unfold emitted; cbn;
  repeat first [ exact (emitted_here _) | apply emitted_more ].

Ltac solve_elem :=
  repeat first [ apply list_elem_of_here | apply list_elem_of_further ].

(** Runs the cleanup of the scope and splits on the comparisons with
    identities of arrays that were not allocated by the call. *)
Ltac run_cleanup :=
  unfold endScope; cbn; decide_eqb;
  repeat match goal with
         | |- context [?x =? ?y] => destruct (x =? y); cbn
         end.

(** A backward call with dy present, in full: it returns; each scalar input
    that needs a gradient gets the sum of dy (negated on the right) over the
    divisor; a cached scalar stays the one it was; without one, the first
    scalar branch creates it from dy's element count. *)
Lemma backProp_run w dy :
  gradientArrays w !! graph.id (outTensor (this w)) = Some dy →
  cache_ok w →
  ∃ w' new, backProp w = (Ok tt, w') ∧ emitted w w' new ∧
    (shouldBackProp (t1 (this w)) = true →
     util.isScalarShape (graph.shape (t1 (this w))) = true →
     ∃ g, EvSet gradientMap (graph.id (t1 (this w))) g ∈ new ∧
          shape g = [] ∧
          values g = [num_div (sum_values (values dy)) (divisor w dy)] ∧
          (graph.id (t1 (this w)) ≠ graph.id (t2 (this w)) →
             gradientArrays w' !! graph.id (t1 (this w)) = Some g)) ∧
    (shouldBackProp (t2 (this w)) = true →
     util.isScalarShape (graph.shape (t2 (this w))) = true →
     ∃ g, EvSet gradientMap (graph.id (t2 (this w))) g ∈ new ∧
          shape g = [] ∧
          values g =
            [num_div (num_neg (sum_values (values dy))) (divisor w dy)] ∧
          gradientArrays w' !! graph.id (t2 (this w)) = Some g) ∧
    (∀ s, dySizeScalar (this w) = Some s → dySizeScalar (this w') = Some s) ∧
    (dySizeScalar (this w) = None →
       if (shouldBackProp (t1 (this w)) &&
             util.isScalarShape (graph.shape (t1 (this w)))) ||
          (shouldBackProp (t2 (this w)) &&
             util.isScalarShape (graph.shape (t2 (this w))))
       then ∃ s, dySizeScalar (this w') = Some s ∧ shape s = [] ∧
                 values s = [num_of_size (size dy)] ∧
                 nextId w ≤ ident s < nextId w'
       else dySizeScalar (this w') = None).
Proof.
  destruct w as [[cache t1 t2 out] sc inf grad n tr].
  unfold cache_ok, divisor. cbn. intros Hdy Hc. unfold_calls. cbn. rewrite Hdy.
  destruct (shouldBackProp t1) eqn:B1,
    (util.isScalarShape (graph.shape t1)) eqn:S1,
    (shouldBackProp t2) eqn:B2,
    (util.isScalarShape (graph.shape t2)) eqn:S2,
    cache as [s|]; cbn.
  all: try rewrite (Hc _ eq_refl).
  all: run_cleanup.
  all: eexists _, _; (split; [reflexivity|]).
  all: split; [solve_emitted|].
  all: cbn; split; [|split; [|split]].
  all: try (intros ? ?; discriminate).
  all: try (intros ? [=]; done).
  all: try (by intros [=]).
  all: try done.
  all: try (intros _; eexists (mkNDArray _ _ _); repeat split; cbn; lia).
  all: intros _ _; eexists (mkNDArray _ _ _); (split; [solve_elem|]); cbn.
  all: (split; [reflexivity|]); (split; [reflexivity|]).
  all: try (by rewrite lookup_insert_eq).
  all: intros Hne; rewrite ?lookup_insert_ne by congruence.
  all: by rewrite lookup_insert_eq.
Qed.

(** C3 (amended): a scalar-shaped input that needs a gradient gets the sum
    of the elements of dy, negated for the right-hand input, divided by the
    node's divisor: the cached scalar, or dy's element count when none is
    cached yet.  This is the mean of dy (negated on the right) whenever no
    scalar is cached or the cached one holds dy's element count. *)
Theorem backProp_scalar_gradient w dy :
  gradientArrays w !! graph.id (outTensor (this w)) = Some dy →
  cache_ok w →
  ∃ w' new, backProp w = (Ok tt, w') ∧ emitted w w' new ∧
    (shouldBackProp (t1 (this w)) = true →
     util.isScalarShape (graph.shape (t1 (this w))) = true →
     ∃ g, EvSet gradientMap (graph.id (t1 (this w))) g ∈ new ∧
          shape g = [] ∧
          values g = [num_div (sum_values (values dy)) (divisor w dy)] ∧
          (graph.id (t1 (this w)) ≠ graph.id (t2 (this w)) →
             gradientArrays w' !! graph.id (t1 (this w)) = Some g)) ∧
    (shouldBackProp (t2 (this w)) = true →
     util.isScalarShape (graph.shape (t2 (this w))) = true →
     ∃ g, EvSet gradientMap (graph.id (t2 (this w))) g ∈ new ∧
          shape g = [] ∧
          values g =
            [num_div (num_neg (sum_values (values dy))) (divisor w dy)] ∧
          gradientArrays w' !! graph.id (t2 (this w)) = Some g) ∧
    ((∀ s, dySizeScalar (this w) = Some s → get s = num_of_size (size dy)) →
       divisor w dy = num_of_size (size dy) ∧
       num_div (sum_values (values dy)) (divisor w dy) = mean dy).
Proof.
  intros Hdy Hc.
  destruct (backProp_run w dy Hdy Hc) as (w' & new & Hrun & Hem & H1 & H2 & _).
  exists w', new. split; [done|]. split; [done|].
  split; [exact H1|]. split; [exact H2|].
  intros Hsame. unfold mean, divisor.
  destruct (dySizeScalar (this w)) as [s|]; [|done].
  by rewrite (Hsame s eq_refl).
Qed.

(** What a backward call with dy present hands to the non-scalar inputs that
    need a gradient: dy itself on the left, a new array of negated elements
    on the right. *)
Lemma backProp_pass_through w dy :
  gradientArrays w !! graph.id (outTensor (this w)) = Some dy →
  ∃ w' new, backProp w = (Ok tt, w') ∧ emitted w w' new ∧
    (shouldBackProp (t1 (this w)) = true →
     util.isScalarShape (graph.shape (t1 (this w))) = false →
     EvSet gradientMap (graph.id (t1 (this w))) dy ∈ new) ∧
    (shouldBackProp (t2 (this w)) = true →
     util.isScalarShape (graph.shape (t2 (this w))) = false →
     ∃ g, EvSet gradientMap (graph.id (t2 (this w))) g ∈ new ∧
          shape g = shape dy ∧ values g = num_neg <$> values dy).
Proof.
  destruct w as [[cache t1 t2 out] sc inf grad n tr]. cbn.
  intros Hdy. unfold_calls. cbn. rewrite Hdy.
  destruct (shouldBackProp t1) eqn:B1,
    (util.isScalarShape (graph.shape t1)) eqn:S1,
    (shouldBackProp t2) eqn:B2,
    (util.isScalarShape (graph.shape t2)) eqn:S2,
    cache as [s|]; cbn.
  all: run_cleanup.
  all: eexists _, _; (split; [reflexivity|]).
  all: split; [solve_emitted|].
  all: split; intros ? ?; try discriminate.
  all: try solve_elem.
  all: eexists (mkNDArray _ _ _); split; [solve_elem|]; done.
Qed.

(** The allocations of a backward call with dy present: their number, and,
    when no divisor scalar is cached and a scalar branch runs, the one scalar
    the call constructs and caches, right after the sum of the left scalar
    branch or else right after the sum and its negation of the right one. *)
Lemma backProp_allocates w dy :
  gradientArrays w !! graph.id (outTensor (this w)) = Some dy →
  ∃ w', backProp w = (Ok tt, w') ∧
    nextId w' = nextId w + backProp_allocations w ∧
    (dySizeScalar (this w) = None →
     left_scalar_runs w || right_scalar_runs w = true →
     dySizeScalar (this w') =
       Some (mkNDArray (nextId w + (if left_scalar_runs w then 1 else 2))
                       [] [num_of_size (size dy)])).
Proof.
  destruct w as [[cache t1 t2 out] sc inf grad n tr].
  unfold backProp_allocations, left_scalar_runs, right_scalar_runs. cbn.
  intros Hdy. unfold_calls. cbn. rewrite Hdy.
  destruct (shouldBackProp t1) eqn:B1,
    (util.isScalarShape (graph.shape t1)) eqn:S1,
    (shouldBackProp t2) eqn:B2,
    (util.isScalarShape (graph.shape t2)) eqn:S2,
    cache as [s|]; cbn.
  all: run_cleanup.
  all: eexists; (split; [reflexivity|]); cbn.
  all: split; [lia|].
  all: intros ? ?; try discriminate.
  all: do 3 f_equal; lia.
Qed.

(** C10: a backward call never replaces a cached divisor scalar and divides
    by it whatever the element count of the dy at hand.  Without a cached
    scalar, the call creates exactly one if a scalar branch runs, in the
    first scalar branch that runs (right after the sum of the left branch, or
    else right after the sum and its negation of the right branch), from
    dy's element count; every scalar branch of that call divides by it; and
    the field stays empty if no scalar branch runs.  The call allocates no
    other scalar: its allocations are counted.  The cached scalar stays a
    one-element array, so the same holds for the next call. *)
Theorem dySizeScalar_frozen w dy :
  gradientArrays w !! graph.id (outTensor (this w)) = Some dy →
  cache_ok w →
  ∃ w' new, backProp w = (Ok tt, w') ∧ emitted w w' new ∧ cache_ok w' ∧
    (∀ s, dySizeScalar (this w) = Some s →
       dySizeScalar (this w') = Some s ∧
       (shouldBackProp (t1 (this w)) = true →
        util.isScalarShape (graph.shape (t1 (this w))) = true →
        ∃ g, EvSet gradientMap (graph.id (t1 (this w))) g ∈ new ∧
             values g = [num_div (sum_values (values dy)) (get s)]) ∧
       (shouldBackProp (t2 (this w)) = true →
        util.isScalarShape (graph.shape (t2 (this w))) = true →
        ∃ g, EvSet gradientMap (graph.id (t2 (this w))) g ∈ new ∧
             values g =
               [num_div (num_neg (sum_values (values dy))) (get s)])) ∧
    (dySizeScalar (this w) = None →
       if (shouldBackProp (t1 (this w)) &&
             util.isScalarShape (graph.shape (t1 (this w)))) ||
          (shouldBackProp (t2 (this w)) &&
             util.isScalarShape (graph.shape (t2 (this w))))
       then ∃ s, dySizeScalar (this w') = Some s ∧ shape s = [] ∧
                 values s = [num_of_size (size dy)] ∧
                 nextId w ≤ ident s < nextId w' ∧
                 ident s = nextId w + (if left_scalar_runs w then 1 else 2) ∧
                 (shouldBackProp (t1 (this w)) = true →
                  util.isScalarShape (graph.shape (t1 (this w))) = true →
                  ∃ g, EvSet gradientMap (graph.id (t1 (this w))) g ∈ new ∧
                       values g = [num_div (sum_values (values dy)) (get s)]) ∧
                 (shouldBackProp (t2 (this w)) = true →
                  util.isScalarShape (graph.shape (t2 (this w))) = true →
                  ∃ g, EvSet gradientMap (graph.id (t2 (this w))) g ∈ new ∧
                       values g =
                         [num_div (num_neg (sum_values (values dy))) (get s)])
       else dySizeScalar (this w') = None) ∧
    nextId w' = nextId w + backProp_allocations w.
Proof.
  intros Hdy Hc.
  destruct (backProp_run w dy Hdy Hc)
    as (w' & new & Hrun & Hem & H1 & H2 & Hkeep & Hnew).
  destruct (backProp_allocates w dy Hdy) as (w'' & Hrun' & Hn & Hcache).
  rewrite Hrun in Hrun'. injection Hrun' as <-.
  exists w', new. split; [done|]. split; [done|].
  split; [|split; [|split; [|exact Hn]]].
  - intros s' Hs'. destruct (dySizeScalar (this w)) as [s|] eqn:Hs.
    + rewrite (Hkeep s eq_refl) in Hs'. injection Hs' as <-. by apply Hc.
    + specialize (Hnew eq_refl). destruct (_ || _).
      * destruct Hnew as (s & Hs2 & _ & Hv & _). rewrite Hs2 in Hs'.
        injection Hs' as <-. unfold get. by rewrite Hv.
      * congruence.
  - intros s Hs. split; [by apply Hkeep|]. unfold divisor in H1, H2.
    rewrite Hs in H1, H2. split.
    + intros B S. destruct (H1 B S) as (g & ? & _ & ? & _). by exists g.
    + intros B S. destruct (H2 B S) as (g & ? & _ & ? & _). by exists g.
  - intros Hnone. specialize (Hcache Hnone).
    unfold divisor in H1, H2. rewrite Hnone in H1, H2.
    unfold backProp_allocations in Hn. rewrite Hnone in Hn.
    unfold right_scalar_runs in *. unfold left_scalar_runs in Hcache, Hn.
    destruct (_ || _) eqn:Hcond; [|by apply Hnew].
    specialize (Hcache eq_refl). eexists. split; [exact Hcache|]. cbn.
    split; [done|]. split; [done|]. split.
    { destruct (shouldBackProp (t1 (this w)) && _),
        (shouldBackProp (t2 (this w))),
        (util.isScalarShape (graph.shape (t2 (this w))));
        cbn in *; try discriminate; lia. }
    split; [done|]. split.
    + intros B S. destruct (H1 B S) as (g & ? & _ & ? & _). by exists g.
    + intros B S. destruct (H2 B S) as (g & ? & _ & ? & _). by exists g.
Qed.

(** C5: the test of the constructor (the size of the shape is 1) and the
    test of feedForward and backProp (isScalarShape) agree on every shape,
    and they hold exactly for the shapes whose dimensions are all 1, whatever
    the rank.  So the three call sites decide alike.  Construction accepts a
    shape that passes the test on either operand, and fails exactly when the
    test of forward and backward fails on both shapes and they differ.
    Forward sends an operand whose shape passes the constructor's test to
    the scalar broadcast (the left one first), and two operands that fail it
    to the elementwise difference.  Backward gives an input whose handle
    passes the constructor's test the sum of dy over the divisor (negated on
    the right), and an input whose handle fails it dy itself (negated on the
    right). *)
Theorem scalar_classifier_agrees sh :
  (util.sizeFromShape sh =? 1) = util.isScalarShape sh ∧
  (util.isScalarShape sh = true ↔ Forall (λ d, d = 1) sh) ∧
  (∀ t1 t2 out,
     graph.shape t1 = sh ∨ graph.shape t2 = sh →
     util.isScalarShape sh = true →
     is_ok (Subtract_new (T:=T) t1 t2 out) = true) ∧
  (∀ t1 t2 out,
     graph.shape t1 = sh →
     (Subtract_new (T:=T) t1 t2 out = Throw ShapeMismatchError ↔
        util.isScalarShape sh = false ∧
        util.isScalarShape (graph.shape t2) = false ∧
        sh ≠ graph.shape t2)) ∧
  (∀ w (A B : NDArray),
     inferenceArrays w !! graph.id (t1 (this w)) = Some A →
     inferenceArrays w !! graph.id (t2 (this w)) = Some B →
     ∃ R w', feedForward w = (Ok tt, w') ∧
       inferenceArrays w' !! graph.id (outTensor (this w)) = Some R ∧
       (shape A = sh → (util.sizeFromShape sh =? 1) = true →
          shape R = shape B ∧ values R = num_sub (get A) <$> values B) ∧
       (shape B = sh → (util.sizeFromShape sh =? 1) = true →
        (util.sizeFromShape (shape A) =? 1) = false →
          shape R = shape A ∧
          values R = (λ x, num_sub x (get B)) <$> values A) ∧
       (shape A = sh → (util.sizeFromShape sh =? 1) = false →
        (util.sizeFromShape (shape B) =? 1) = false →
          shape R = shape A ∧
          values R = zip_with num_sub (values A) (values B))) ∧
  (∀ w dy,
     gradientArrays w !! graph.id (outTensor (this w)) = Some dy →
     cache_ok w →
     ∃ w' new, backProp w = (Ok tt, w') ∧ emitted w w' new ∧
       (graph.shape (t1 (this w)) = sh →
        shouldBackProp (t1 (this w)) = true →
          if util.sizeFromShape sh =? 1
          then ∃ g, EvSet gradientMap (graph.id (t1 (this w))) g ∈ new ∧
                 shape g = [] ∧
                 values g = [num_div (sum_values (values dy)) (divisor w dy)]
          else EvSet gradientMap (graph.id (t1 (this w))) dy ∈ new) ∧
       (graph.shape (t2 (this w)) = sh →
        shouldBackProp (t2 (this w)) = true →
          ∃ g, EvSet gradientMap (graph.id (t2 (this w))) g ∈ new ∧
            if util.sizeFromShape sh =? 1
            then shape g = [] ∧
                 values g = [num_div (num_neg (sum_values (values dy)))
                                     (divisor w dy)]
            else shape g = shape dy ∧ values g = num_neg <$> values dy)).
Proof.
  split; [reflexivity|]. split; [apply isScalarShape_ones|].
  split; [|split; [|split]].
  - intros t1 t2 out Hsh Hs. unfold util.isScalarShape in Hs.
    unfold Subtract_new, assert. destruct Hsh as [-> | ->]; rewrite Hs; simpl.
    + done.
    + by rewrite orb_true_r.
  - intros t1 t2 out <-. unfold util.isScalarShape.
    pose proof (arraysEqual_spec (graph.shape t1) (graph.shape t2)) as Heq.
    unfold Subtract_new, assert.
    destruct (_ =? 1), (_ =? 1), (util.arraysEqual _ _); simpl;
      intuition congruence.
  - intros w A B HA HB. unfold_calls. cbn. rewrite HA, HB.
    unfold util.isScalarShape.
    destruct (util.sizeFromShape (shape A) =? 1) eqn:EA;
      [|destruct (util.sizeFromShape (shape B) =? 1) eqn:EB]; cbn.
    all: decide_eqb.
    all: eexists (mkNDArray _ _ _), _; (split; [reflexivity|]); cbn.
    all: split; [by rewrite lookup_insert_eq|].
    all: repeat split; intros; subst; congruence.
  - intros w dy Hdy Hc.
    destruct (backProp_run w dy Hdy Hc)
      as (w' & new & Hrun & Hem & H1 & H2 & _).
    destruct (backProp_pass_through w dy Hdy)
      as (w'' & new' & Hrun' & Hem' & P1 & P2).
    rewrite Hrun in Hrun'. injection Hrun' as <-.
    assert (new' = new) as ->.
    { unfold emitted in Hem, Hem'. rewrite Hem in Hem'.
      by apply app_inv_tail in Hem'. }
    exists w', new. split; [done|]. split; [done|].
    unfold util.isScalarShape in H1, H2, P1, P2. split.
    + intros Hsh B1. rewrite Hsh in H1, P1.
      destruct (util.sizeFromShape sh =? 1).
      * destruct (H1 B1 eq_refl) as (g & ? & ? & ? & _). by exists g.
      * by apply P1.
    + intros Hsh B2. rewrite Hsh in H2, P2.
      destruct (util.sizeFromShape sh =? 1).
      * destruct (H2 B2 eq_refl) as (g & ? & ? & ? & _). by exists g.
      * destruct (P2 B2 eq_refl) as (g & ? & ? & ?). by exists g.
Qed.

(** C8: when an input's forward value is absent, feedForward fails and
    leaves the world, both value maps included, as it was; likewise backProp
    when the gradient of the output handle is absent. *)
Theorem missing_entry_leaves_world w :
  (inferenceArrays w !! graph.id (t1 (this w)) = None ∨
   inferenceArrays w !! graph.id (t2 (this w)) = None →
     feedForward w = (Throw MissingValueError, w)) ∧
  (gradientArrays w !! graph.id (outTensor (this w)) = None →
     backProp w = (Throw MissingGradientError, w)).
Proof.
  split.
  - intros Hmiss. unfold_calls. cbn.
    destruct (inferenceArrays w !! graph.id (t1 (this w))) as [A|]; [|done].
    destruct Hmiss as [?| ->]; done.
  - intros Hmiss. unfold_calls. cbn. by rewrite Hmiss.
Qed.

(** C6 (amended): release never fails; without a cached scalar it is a
    no-op; with one, every call of release calls dispose on it once and
    leaves the field set, so that two calls dispose it twice. *)
Theorem dispose_each_call w :
  (dispose w).1 = Ok tt ∧
  (andThen dispose dispose w).1 = Ok tt ∧
  (dySizeScalar (this w) = None →
     (dispose w).2 = w ∧ (andThen dispose dispose w).2 = w) ∧
  (∀ s, dySizeScalar (this w) = Some s →
     (dispose w).2 = emit (EvDispose s) w ∧
     dySizeScalar (this (dispose w).2) = Some s ∧
     (andThen dispose dispose w).2 =
       emit (EvDispose s) (emit (EvDispose s) w) ∧
     disposals (ident s) (trace (andThen dispose dispose w).2) =
       2 + disposals (ident s) (trace w)).
Proof.
  unfold_calls. cbn.
  destruct (dySizeScalar (this w)) as [s|] eqn:Hs; cbn; rewrite ?Hs; cbn.
  - split; [done|]. split; [done|]. split; [done|]. intros s' [= <-].
    unfold disposals. cbn. rewrite Nat.eqb_refl. done.
  - repeat split; done.
Qed.

(** Refutes membership of a write under one key in an explicit list of
    events under other keys. *)
Ltac no_such_write H :=
  repeat (apply elem_of_cons in H as [H|H];
          [first [discriminate H | injection H; congruence]|]);
  by apply elem_of_nil in H.

(** C7: for an input that needs no gradient, a backward call makes no write
    under that input's handle, in either map, and the handle's entry in the
    gradient map is what it was, present or not. *)
Theorem backProp_skips_input w t :
  t = t1 (this w) ∨ t = t2 (this w) →
  shouldBackProp t = false →
  (graph.id (t1 (this w)) = graph.id (t2 (this w)) →
     t1 (this w) = t2 (this w)) →
  ∃ new, emitted w (backProp w).2 new ∧
    (∀ m a, EvSet m (graph.id t) a ∉ new) ∧
    gradientArrays (backProp w).2 !! graph.id t =
      gradientArrays w !! graph.id t.
Proof.
  destruct w as [[cache t1 t2 out] sc inf grad n tr]. cbn.
  intros Ht Hno Hid.
  assert (shouldBackProp t1 ≠ shouldBackProp t2 →
          graph.id t1 ≠ graph.id t2) as Hne
    by (intros Hd He; apply Hd; by rewrite (Hid He)).
  unfold_calls. cbn.
  destruct (grad !! graph.id out) as [dy|]; cbn.
  2: { exists []. split; [done|]. split; [|done]. intros m a Hin.
       by apply elem_of_nil in Hin. }
  destruct (shouldBackProp t1) eqn:B1,
    (util.isScalarShape (graph.shape t1)) eqn:S1,
    (shouldBackProp t2) eqn:B2,
    (util.isScalarShape (graph.shape t2)) eqn:S2,
    cache as [s|]; cbn.
  all: destruct Ht as [-> | ->]; try congruence.
  all: try (assert (graph.id t1 ≠ graph.id t2) by (apply Hne; congruence)).
  all: run_cleanup.
  all: eexists; (split; [solve_emitted|]).
  all: split; [intros m a Hin; no_such_write Hin|].
  all: by rewrite ?lookup_insert_ne by congruence.
Qed.

Ltac enum_range i n :=
  first [ by (exfalso; lia)
        | destruct (decide (i = n)) as [->|?]; [|enum_range i (S n)] ].

Ltac survivor_case :=
  unfold disposals, written; cbn; decide_eqb;
  split; intros;
  repeat match goal with
         | H : _ ∨ _ |- _ => destruct H
         | H : _ ∧ _ |- _ => destruct H
         | H : Some _ = Some _ |- _ => injection H as H
         end;
  try discriminate; try lia; auto.

(** C9 (amended): a forward or backward call leaves the scope stack as it
    found it.  Of the arrays it allocates, the ones not disposed on return
    are exactly those handed to a value map and, for a backward call that
    found no cached divisor scalar and created it, that scalar. *)
Theorem scope_releases_temporaries w :
  (∀ A B,
     inferenceArrays w !! graph.id (t1 (this w)) = Some A →
     inferenceArrays w !! graph.id (t2 (this w)) = Some B →
     ∃ w', feedForward w = (Ok tt, w') ∧ scopes w' = scopes w ∧
           only_written_survive w w') ∧
  (∀ dy,
     gradientArrays w !! graph.id (outTensor (this w)) = Some dy →
     ident dy < nextId w →
     ∃ w' new, backProp w = (Ok tt, w') ∧ scopes w' = scopes w ∧
       emitted w w' new ∧
       ∀ i, nextId w ≤ i < nextId w' →
         (disposals i new = 0 ↔
            written i new = true ∨
            (dySizeScalar (this w) = None ∧
             ident <$> dySizeScalar (this w') = Some i))).
Proof.
  destruct w as [[cache t1 t2 out] sc inf grad n tr]. cbn. split.
  - intros A B HA HB. unfold_calls. cbn. rewrite HA. cbn. rewrite HB.
    destruct (util.isScalarShape (shape A));
      [|destruct (util.isScalarShape (shape B))]; cbn.
    all: run_cleanup.
    all: eexists; (split; [reflexivity|]); (split; [reflexivity|]).
    all: eexists; (split; [solve_emitted|]); cbn.
    all: intros i Hi; enum_range i n; survivor_case.
  - intros dy Hdy Hfresh. unfold_calls. cbn. rewrite Hdy.
    destruct (shouldBackProp t1) eqn:B1,
      (util.isScalarShape (graph.shape t1)) eqn:S1,
      (shouldBackProp t2) eqn:B2,
      (util.isScalarShape (graph.shape t2)) eqn:S2,
      cache as [s|]; cbn.
    all: run_cleanup.
    all: eexists _, _; (split; [reflexivity|]); (split; [reflexivity|]).
    all: split; [solve_emitted|]; cbn.
    all: intros i Hi; enum_range i n; survivor_case.
Qed.

(** ** Further properties of the node's methods *)

(** X1: a forward call with both inputs present allocates exactly one array,
    disposes nothing, and writes only the entry of the output handle: the
    node, the gradient map, the scope stack and every other entry of the
    forward map are as before. *)
Theorem feedForward_frame w (A B : NDArray) :
  inferenceArrays w !! graph.id (t1 (this w)) = Some A →
  inferenceArrays w !! graph.id (t2 (this w)) = Some B →
  ∃ R w', feedForward w = (Ok tt, w') ∧
    this w' = this w ∧ gradientArrays w' = gradientArrays w ∧
    scopes w' = scopes w ∧
    ident R = nextId w ∧ nextId w' = S (nextId w) ∧
    trace w' = EvSet inferenceMap (graph.id (outTensor (this w))) R :: trace w ∧
    (∀ k, k ≠ graph.id (outTensor (this w)) →
       inferenceArrays w' !! k = inferenceArrays w !! k).
Proof.
  destruct w as [[cache t1 t2 out] sc inf grad n tr]. cbn.
  intros HA HB. unfold_calls. cbn. rewrite HA. cbn. rewrite HB.
  destruct (util.isScalarShape (shape A));
    [|destruct (util.isScalarShape (shape B))]; cbn.
  all: run_cleanup.
  all: eexists (mkNDArray _ _ _), _; (split; [reflexivity|]); cbn.
  all: repeat (split; [reflexivity|]).
  all: intros k Hk; by rewrite lookup_insert_ne.
Qed.

(** X2: a backward call, whatever its outcome, leaves the forward map, the
    scope stack and the node's three handles as they were, and changes the
    gradient map at most under the handles of the two inputs. *)
Theorem backProp_frame w :
  inferenceArrays (backProp w).2 = inferenceArrays w ∧
  scopes (backProp w).2 = scopes w ∧
  t1 (this (backProp w).2) = t1 (this w) ∧
  t2 (this (backProp w).2) = t2 (this w) ∧
  outTensor (this (backProp w).2) = outTensor (this w) ∧
  (∀ k, k ≠ graph.id (t1 (this w)) → k ≠ graph.id (t2 (this w)) →
     gradientArrays (backProp w).2 !! k = gradientArrays w !! k).
Proof.
  destruct w as [[cache t1 t2 out] sc inf grad n tr]. cbn.
  unfold_calls. cbn.
  destruct (grad !! graph.id out) as [dy|]; cbn; [|done].
  destruct (shouldBackProp t1), (util.isScalarShape (graph.shape t1)),
    (shouldBackProp t2), (util.isScalarShape (graph.shape t2)),
    cache as [s|]; cbn.
  all: run_cleanup.
  all: repeat (split; [reflexivity|]).
  all: intros k Hk1 Hk2; by rewrite ?lookup_insert_ne.
Qed.

(** X3: when neither input needs a gradient and the output gradient is
    present, a backward call returns and leaves the world exactly as it was:
    nothing allocated, written, disposed or cached. *)
Theorem backProp_nothing_to_do w dy :
  gradientArrays w !! graph.id (outTensor (this w)) = Some dy →
  shouldBackProp (t1 (this w)) = false →
  shouldBackProp (t2 (this w)) = false →
  backProp w = (Ok tt, w).
Proof.
  destruct w as [[cache t1 t2 out] sc inf grad n tr]. cbn.
  intros Hdy B1 B2. unfold_calls. cbn. rewrite Hdy, B1, B2. reflexivity.
Qed.

(** X4: when both inputs are one and the same handle and it needs a gradient,
    the second write replaces the first: the entry left under the handle is
    the right-hand gradient alone (the negated dy, or the negated sum over the
    divisor for a scalar handle), while the left-hand gradient, the first
    write of the call, was overwritten, not added to. *)
Theorem backProp_same_handle w dy :
  gradientArrays w !! graph.id (outTensor (this w)) = Some dy →
  cache_ok w →
  t1 (this w) = t2 (this w) →
  shouldBackProp (t1 (this w)) = true →
  ∃ w' new g1 g2, backProp w = (Ok tt, w') ∧ emitted w w' new ∧
    last new = Some (EvSet gradientMap (graph.id (t1 (this w))) g1) ∧
    EvSet gradientMap (graph.id (t1 (this w))) g2 ∈ new ∧
    gradientArrays w' !! graph.id (t1 (this w)) = Some g2 ∧
    (if util.isScalarShape (graph.shape (t1 (this w)))
     then values g1 = [num_div (sum_values (values dy)) (divisor w dy)] ∧
          values g2 =
            [num_div (num_neg (sum_values (values dy))) (divisor w dy)]
     else g1 = dy ∧ values g2 = num_neg <$> values dy).
Proof.
  destruct w as [[cache t1 t2 out] sc inf grad n tr].
  unfold cache_ok, divisor. cbn. intros Hdy Hc <- B1.
  unfold_calls. cbn. rewrite Hdy, B1.
  destruct (util.isScalarShape (graph.shape t1)) eqn:S1, cache as [s|]; cbn.
  all: try rewrite (Hc _ eq_refl).
  all: run_cleanup.
  all: eexists _, _, _, _.
  all: split; [reflexivity|]; (split; [solve_emitted|]); cbn.
  all: split; [reflexivity|].
  all: split; [solve_elem|].
  all: split; [by rewrite lookup_insert_eq|].
  all: split; reflexivity.
Qed.

(** X5: two forward calls in a row, on inputs stored under handles other
    than the output's, both return; the second stores a new array with the
    same shape and elements under the output handle, and the array of the
    first call is replaced in the map without being disposed. *)
Theorem feedForward_twice w (A B : NDArray) :
  inferenceArrays w !! graph.id (t1 (this w)) = Some A →
  inferenceArrays w !! graph.id (t2 (this w)) = Some B →
  graph.id (outTensor (this w)) ≠ graph.id (t1 (this w)) →
  graph.id (outTensor (this w)) ≠ graph.id (t2 (this w)) →
  ∃ R1 R2 w', andThen feedForward feedForward w = (Ok tt, w') ∧
    inferenceArrays w' !! graph.id (outTensor (this w)) = Some R2 ∧
    shape R2 = shape R1 ∧ values R2 = values R1 ∧
    ident R1 = nextId w ∧ ident R2 = S (nextId w) ∧
    trace w' = EvSet inferenceMap (graph.id (outTensor (this w))) R2 ::
               EvSet inferenceMap (graph.id (outTensor (this w))) R1 :: trace w.
Proof.
  destruct w as [[cache t1 t2 out] sc inf grad n tr]. cbn.
  intros HA HB H1 H2. unfold_calls. cbn. rewrite HA. cbn. rewrite HB.
  destruct (util.isScalarShape (shape A)) eqn:EA;
    [|destruct (util.isScalarShape (shape B)) eqn:EB]; cbn.
  all: run_cleanup.
  all: rewrite lookup_insert_ne by done; rewrite HA; cbn.
  all: rewrite lookup_insert_ne by done; rewrite HB, EA; rewrite ?EB; cbn.
  all: run_cleanup.
  all: eexists (mkNDArray _ _ _), (mkNDArray _ _ _), _.
  all: split; [reflexivity|]; cbn.
  all: split; [by rewrite lookup_insert_eq|].
  all: repeat (split; [reflexivity|]); reflexivity.
Qed.

(** X6: release does not detach the scalar from the node: a backward call
    after release finds the disposed scalar still cached and keeps it, where
    a node that was never used would create a new one. *)
Theorem backProp_after_dispose w s :
  dySizeScalar (this w) = Some s →
  dySizeScalar (this (andThen dispose backProp w).2) = Some s ∧
  ∃ new, trace (andThen dispose backProp w).2 =
           new ++ EvDispose s :: trace w.
Proof.
  destruct w as [[cache t1 t2 out] sc inf grad n tr]. cbn. intros ->.
  unfold_calls. cbn.
  destruct (grad !! graph.id out) as [dy|]; cbn.
  2: { split; [done|]. by exists []. }
  destruct (shouldBackProp t1), (util.isScalarShape (graph.shape t1)),
    (shouldBackProp t2), (util.isScalarShape (graph.shape t2)); cbn.
  all: run_cleanup.
  all: split; [reflexivity|]; eexists; solve_emitted.
Qed.

(** X7: the shape check of the constructor is symmetric in the two operands
    and does not look at the output handle. *)
Theorem Subtract_new_symmetric (t1 t2 out out' : graph.Tensor) :
  is_ok (Subtract_new (T:=T) t1 t2 out) = is_ok (Subtract_new (T:=T) t2 t1 out').
Proof.
  unfold Subtract_new, assert.
  assert (util.arraysEqual (graph.shape t1) (graph.shape t2) =
          util.arraysEqual (graph.shape t2) (graph.shape t1)) as ->.
  { apply eq_iff_eq_true. rewrite !arraysEqual_spec. split; congruence. }
  destruct (_ =? 1), (_ =? 1), (util.arraysEqual _ _); reflexivity.
Qed.

(** X8: on a node that passed the constructor's shape check, with well-formed
    input arrays that have the shapes of their handles, a forward call stores
    a well-formed array whose shape is that of the right operand when the
    left one is scalar-shaped and that of the left operand otherwise. *)
Theorem feedForward_of_constructed w (A B : NDArray) :
  is_ok (Subtract_new (T:=T) (t1 (this w)) (t2 (this w))
                      (outTensor (this w))) = true →
  inferenceArrays w !! graph.id (t1 (this w)) = Some A →
  inferenceArrays w !! graph.id (t2 (this w)) = Some B →
  shape A = graph.shape (t1 (this w)) →
  shape B = graph.shape (t2 (this w)) →
  well_formed A → well_formed B →
  ∃ R w', feedForward w = (Ok tt, w') ∧
    inferenceArrays w' !! graph.id (outTensor (this w)) = Some R ∧
    well_formed R ∧
    shape R = (if util.isScalarShape (shape A) then shape B else shape A).
Proof.
  destruct w as [[cache t1 t2 out] sc inf grad n tr]. cbn.
  intros Hok HA HB SA SB WA WB. unfold_calls. cbn. rewrite HA. cbn. rewrite HB.
  unfold Subtract_new, assert in Hok. rewrite <- SA, <- SB in Hok.
  unfold well_formed, size in *.
  destruct (util.isScalarShape (shape A)) eqn:EA;
    [|destruct (util.isScalarShape (shape B)) eqn:EB]; cbn.
  all: run_cleanup.
  all: eexists (mkNDArray _ _ _), _; (split; [reflexivity|]); cbn.
  all: split; [by rewrite lookup_insert_eq|].
  all: split; [|reflexivity].
  - by rewrite length_fmap.
  - by rewrite length_fmap.
  - unfold util.isScalarShape in EA, EB. rewrite EA, EB in Hok. cbn in Hok.
    destruct (util.arraysEqual (shape A) (shape B)) eqn:Eq; [|done].
    apply arraysEqual_spec in Eq. rewrite length_zip_with, WA, WB, Eq.
    apply Nat.min_id.
Qed.

(** X9: whatever a backward call disposes, it allocated itself: no array that
    existed before the call (dy, a cached scalar, an array of an enclosing
    scope) is disposed by it. *)
Theorem backProp_disposes_own_temporaries w :
  ∃ new, emitted w (backProp w).2 new ∧
    ∀ a, EvDispose a ∈ new → nextId w ≤ ident a < nextId (backProp w).2.
Proof.
  destruct w as [[cache t1 t2 out] sc inf grad n tr]. cbn.
  unfold_calls. cbn.
  destruct (grad !! graph.id out) as [dy|]; cbn.
  2: { exists []. split; [done|]. intros a Hin. by apply elem_of_nil in Hin. }
  destruct (shouldBackProp t1), (util.isScalarShape (graph.shape t1)),
    (shouldBackProp t2), (util.isScalarShape (graph.shape t2)),
    cache as [s|]; cbn.
  all: run_cleanup.
  all: eexists; (split; [solve_emitted|]); cbn.
  all: intros a Hin.
  all: repeat (apply elem_of_cons in Hin as [Hin|Hin];
               [first [discriminate Hin | injection Hin as ->; cbn; lia]|]).
  all: by apply elem_of_nil in Hin.
Qed.

(** X10: a backward call does not read the forward map: with any other
    forward map in its place the call has the same outcome and leaves the
    same world, forward map apart. *)
Theorem backProp_ignores_forward_map w
    (f : gmap nat NDArray → gmap nat NDArray) :
  backProp (set_map inferenceMap f w) =
    ((backProp w).1, set_map inferenceMap f (backProp w).2).
Proof.
  destruct w as [[cache t1 t2 out] sc inf grad n tr]. cbn.
  unfold_calls. cbn.
  destruct (grad !! graph.id out) as [dy|]; cbn; [|done].
  destruct (shouldBackProp t1), (util.isScalarShape (graph.shape t1)),
    (shouldBackProp t2), (util.isScalarShape (graph.shape t2)),
    cache as [s|]; cbn.
  all: run_cleanup.
  all: reflexivity.
Qed.

(** The gradient map after a backward call with dy present, handle by
    handle, together with what the next call will find: the same handles, a
    well-formed cache and the same divisor for the same dy. *)
Lemma backProp_gradient_map w dy :
  gradientArrays w !! graph.id (outTensor (this w)) = Some dy →
  cache_ok w →
  ∃ w', backProp w = (Ok tt, w') ∧
    t1 (this w') = t1 (this w) ∧ t2 (this w') = t2 (this w) ∧
    outTensor (this w') = outTensor (this w) ∧
    cache_ok w' ∧ divisor w' dy = divisor w dy ∧
    ∀ k,
      if shouldBackProp (t2 (this w)) &&
         bool_decide (k = graph.id (t2 (this w)))
      then ∃ g, gradientArrays w' !! k = Some g ∧
             if util.isScalarShape (graph.shape (t2 (this w)))
             then shape g = [] ∧
                  values g = [num_div (num_neg (sum_values (values dy)))
                                      (divisor w dy)]
             else shape g = shape dy ∧ values g = num_neg <$> values dy
      else if shouldBackProp (t1 (this w)) &&
              bool_decide (k = graph.id (t1 (this w)))
      then ∃ g, gradientArrays w' !! k = Some g ∧
             if util.isScalarShape (graph.shape (t1 (this w)))
             then shape g = [] ∧
                  values g = [num_div (sum_values (values dy)) (divisor w dy)]
             else g = dy
      else gradientArrays w' !! k = gradientArrays w !! k.
Proof.
  destruct w as [[cache t1 t2 out] sc inf grad n tr].
  unfold cache_ok, divisor. cbn. intros Hdy Hc. unfold_calls. cbn. rewrite Hdy.
  destruct (shouldBackProp t1) eqn:B1,
    (util.isScalarShape (graph.shape t1)) eqn:S1,
    (shouldBackProp t2) eqn:B2,
    (util.isScalarShape (graph.shape t2)) eqn:S2,
    cache as [s|]; cbn.
  all: try rewrite (Hc _ eq_refl).
  all: run_cleanup.
  all: eexists; (split; [reflexivity|]); cbn.
  all: repeat (split; [reflexivity|]).
  all: split; [first [exact Hc | by intros ? [= <-] | done]|].
  all: split; [reflexivity|].
  all: intros k; repeat case_bool_decide; subst; cbn.
  all: rewrite ?lookup_insert_eq; rewrite ?lookup_insert_ne by done.
  all: rewrite ?lookup_insert_eq.
  all: first [ reflexivity | eexists; split; [reflexivity|]; by cbn ].
Qed.

(** X11: two backward calls in a row on the same upstream gradient, stored
    under a handle other than the inputs', both return and leave, under every
    handle, gradients with the same shape and the same elements: the divisor
    cached by the first call is the one the second call would have
    computed. *)
Theorem backProp_twice_same_gradients w dy :
  gradientArrays w !! graph.id (outTensor (this w)) = Some dy →
  cache_ok w →
  graph.id (outTensor (this w)) ≠ graph.id (t1 (this w)) →
  graph.id (outTensor (this w)) ≠ graph.id (t2 (this w)) →
  ∃ w1 w2, backProp w = (Ok tt, w1) ∧ backProp w1 = (Ok tt, w2) ∧
    ∀ k,
      values <$> gradientArrays w2 !! k = values <$> gradientArrays w1 !! k ∧
      shape <$> gradientArrays w2 !! k = shape <$> gradientArrays w1 !! k.
Proof.
  intros Hdy Hc H1 H2.
  destruct (backProp_gradient_map w dy Hdy Hc)
    as (w1 & Hrun1 & F1 & F2 & Fo & Hc1 & Hd1 & Hmap1).
  assert (gradientArrays w1 !! graph.id (outTensor (this w1)) = Some dy) as Hdy1.
  { rewrite Fo. specialize (Hmap1 (graph.id (outTensor (this w)))).
    rewrite !bool_decide_eq_false_2, !andb_false_r in Hmap1 by done.
    by rewrite Hmap1. }
  destruct (backProp_gradient_map w1 dy Hdy1 Hc1)
    as (w2 & Hrun2 & _ & _ & _ & _ & _ & Hmap2).
  exists w1, w2. split; [done|]. split; [done|]. intros k.
  specialize (Hmap1 k). specialize (Hmap2 k).
  rewrite F1, F2, Hd1 in Hmap2.
  destruct (shouldBackProp (t2 (this w)) && _).
  - destruct Hmap1 as (g1 & -> & Hg1), Hmap2 as (g2 & -> & Hg2). cbn.
    destruct (util.isScalarShape _);
      destruct Hg1 as [-> ->], Hg2 as [-> ->]; done.
  - destruct (shouldBackProp (t1 (this w)) && _).
    + destruct Hmap1 as (g1 & -> & Hg1), Hmap2 as (g2 & -> & Hg2). cbn.
      destruct (util.isScalarShape _).
      * destruct Hg1 as [-> ->], Hg2 as [-> ->]; done.
      * by subst.
    + by rewrite Hmap2.
Qed.

(** X12: the gradient map after a backward call with dy present, for every
    combination of scalar and non-scalar inputs that do or do not need a
    gradient: the right-hand handle, if it needs one, holds the negated dy
    or, for a scalar, the negated sum over the divisor; otherwise the
    left-hand handle, if it needs one, holds dy itself or, for a scalar, the
    sum over the divisor; every other handle holds what it held. *)
Theorem backProp_gradient_closed_form w dy :
  gradientArrays w !! graph.id (outTensor (this w)) = Some dy →
  cache_ok w →
  ∃ w', backProp w = (Ok tt, w') ∧
    ∀ k,
      if shouldBackProp (t2 (this w)) &&
         bool_decide (k = graph.id (t2 (this w)))
      then ∃ g, gradientArrays w' !! k = Some g ∧
             if util.isScalarShape (graph.shape (t2 (this w)))
             then shape g = [] ∧
                  values g = [num_div (num_neg (sum_values (values dy)))
                                      (divisor w dy)]
             else shape g = shape dy ∧ values g = num_neg <$> values dy
      else if shouldBackProp (t1 (this w)) &&
              bool_decide (k = graph.id (t1 (this w)))
      then ∃ g, gradientArrays w' !! k = Some g ∧
             if util.isScalarShape (graph.shape (t1 (this w)))
             then shape g = [] ∧
                  values g = [num_div (sum_values (values dy)) (divisor w dy)]
             else g = dy
      else gradientArrays w' !! k = gradientArrays w !! k.
Proof.
  intros Hdy Hc.
  destruct (backProp_gradient_map w dy Hdy Hc)
    as (w' & Hrun & _ & _ & _ & _ & _ & Hmap).
  by exists w'.
Qed.

End properties.

(** * Concrete runs *)

Section runs.
Import examples.
Open Scope Q_scope.

(** The examples of the contract, evaluated on the model. *)
Example forward_same_shape :
  (feedForward fwd_same).1 = Ok tt ∧
  inferenceArrays (feedForward fwd_same).2 !! 2%nat =
    Some (array 2 [2%nat] [2; 3]).
Proof. split; vm_compute; reflexivity. Qed.

Example forward_left_scalar :
  inferenceArrays (feedForward fwd_left).2 !! 2%nat =
    Some (array 2 [3%nat] [4; 3; 2]).
Proof. vm_compute; reflexivity. Qed.

Example forward_right_scalar :
  inferenceArrays (feedForward fwd_right).2 !! 2%nat =
    Some (array 2 [3%nat] [-1; 0; 1]).
Proof. vm_compute; reflexivity. Qed.

Example backward_same_shape :
  let w' := (backProp (graph_util := every_input) bwd_same).2 in
  gradientArrays w' !! 0%nat = Some ones ∧
  gradientArrays w' !! 1%nat = Some (array 1 [3%nat] [-1; -1; -1]).
Proof. split; vm_compute; reflexivity. Qed.

Example backward_left_scalar :
  values <$> gradientArrays (backProp (graph_util := every_input) bwd_left).2
               !! 0%nat = Some [2].
Proof. vm_compute; reflexivity. Qed.

Example backward_right_scalar :
  values <$> gradientArrays (backProp (graph_util := every_input) bwd_right).2
               !! 1%nat = Some [-2].
Proof. vm_compute; reflexivity. Qed.

End runs.

(** * The properties at concrete worlds *)

Section instances.
Import examples.
Open Scope Q_scope.

(** C1 at [3,5] - [1,2]. *)
Lemma feedForward_correct_witness :
  (inferenceArrays fwd_same !! graph.id (t1 (this fwd_same))
     = Some (array 0 [2%nat] [3; 5]) ∧
   inferenceArrays fwd_same !! graph.id (t2 (this fwd_same))
     = Some (array 1 [2%nat] [1; 2]) ∧
   well_formed (array 0 [2%nat] [3; 5]) ∧
   well_formed (array 1 [2%nat] [1; 2])) ∧
  ∃ R w', feedForward fwd_same = (Ok tt, w') ∧
    inferenceArrays w' = <[2%nat := R]> (inferenceArrays fwd_same) ∧
    shape R = [2%nat] ∧ values R = [2; 3].
Proof.
  assert (inferenceArrays fwd_same !! graph.id (t1 (this fwd_same))
            = Some (array 0 [2%nat] [3; 5])) as HA by reflexivity.
  assert (inferenceArrays fwd_same !! graph.id (t2 (this fwd_same))
            = Some (array 1 [2%nat] [1; 2])) as HB by reflexivity.
  assert (well_formed (array 0 [2%nat] [3; 5])) as WA by reflexivity.
  assert (well_formed (array 1 [2%nat] [1; 2])) as WB by reflexivity.
  split; [done|].
  destruct (feedForward_correct fwd_same _ _ HA HB WA WB)
    as (R & w' & Hrun & Hmap & Hsame & _).
  exists R, w'. destruct (Hsame eq_refl) as [Hs Hv].
  split; [done|]. split; [done|]. split; [done|].
  rewrite Hv. reflexivity.
Defined.

(** C2 at dy = [1,1,1]. *)
Lemma backProp_same_shape_witness :
  (gradientArrays bwd_same !! graph.id (outTensor (this bwd_same)) = Some ones ∧
   util.isScalarShape (graph.shape (t1 (this bwd_same))) = false ∧
   util.isScalarShape (graph.shape (t2 (this bwd_same))) = false ∧
   shouldBackProp (GraphUtil := every_input) (t1 (this bwd_same)) = true ∧
   shouldBackProp (GraphUtil := every_input) (t2 (this bwd_same)) = true) ∧
  ∃ n w', backProp (graph_util := every_input) bwd_same = (Ok tt, w') ∧
    values n = [-1; -1; -1] ∧
    gradientArrays w' !! 0%nat = Some ones ∧
    gradientArrays w' !! 1%nat = Some n.
Proof.
  split; [repeat split|].
  destruct (backProp_same_shape (graph_util := every_input) bwd_same ones
              eq_refl eq_refl eq_refl eq_refl eq_refl)
    as (n & w' & Hrun & _ & Hv & _ & _ & H1 & H2).
  exists n, w'. split; [done|]. split; [by rewrite Hv|].
  split; [|done]. apply H1. cbn. lia.
Defined.

(** C3, as stated, fails on a node that has cached its divisor: after a
    backward call with a dy of four elements, a backward call with a dy of
    two elements, [2,2], yields 4/4 = 1 for the scalar left input, while the
    mean of that dy is 2. *)
Lemma stale_divisor_not_mean :
  ∃ dy g,
    gradientArrays bwd_left_again !! graph.id (outTensor (this bwd_left_again))
      = Some dy ∧
    shouldBackProp (GraphUtil := every_input) (t1 (this bwd_left_again)) = true ∧
    util.isScalarShape (graph.shape (t1 (this bwd_left_again))) = true ∧
    (backProp (graph_util := every_input) bwd_left_again).1 = Ok tt ∧
    gradientArrays (backProp (graph_util := every_input) bwd_left_again).2
      !! graph.id (t1 (this bwd_left_again)) = Some g ∧
    values dy = [2; 2] ∧ mean dy = 2 ∧ values g = [1] ∧
    values g ≠ [mean dy].
Proof.
  eexists (mkNDArray _ _ _), (mkNDArray _ _ _).
  repeat (split; [vm_compute; reflexivity|]).
  vm_compute. discriminate.
Qed.

(** C3 (amended) at dy = [2,2,2,2] on a fresh node: 2 for the left scalar. *)
Lemma backProp_scalar_gradient_witness :
  (gradientArrays bwd_left !! graph.id (outTensor (this bwd_left)) = Some twos ∧
   cache_ok bwd_left) ∧
  ∃ g, shape g = [] ∧ values g = [2] ∧
    gradientArrays (backProp (graph_util := every_input) bwd_left).2 !! 0%nat
      = Some g.
Proof.
  assert (cache_ok bwd_left) as Hc by (intros s Hs; discriminate Hs).
  split; [done|].
  destruct (backProp_scalar_gradient (graph_util := every_input)
              bwd_left twos eq_refl Hc)
    as (w' & new & Hrun & _ & H1 & _ & _).
  destruct (H1 eq_refl eq_refl) as (g & _ & Hs & Hv & Hl).
  exists g. split; [done|]. split; [by rewrite Hv|].
  rewrite Hrun. apply Hl. cbn. lia.
Defined.

(** C4 on a mismatch, [2,3] against [3,2], and on a one-element shape of
    rank two. *)
Lemma Subtract_new_shape_check_witness :
  Subtract_new (T:=Q) (handle 0 [2; 3]%nat) (handle 1 [3; 2]%nat)
               (handle 2 [2; 3]%nat) = Throw ShapeMismatchError ∧
  is_ok (Subtract_new (T:=Q) (handle 0 [1; 1]%nat) (handle 1 [3; 2]%nat)
                      (handle 2 [3; 2]%nat)) = true.
Proof.
  split.
  - destruct (Subtract_new_shape_check (T:=Q) (handle 0 [2; 3]%nat)
                (handle 1 [3; 2]%nat) (handle 2 [2; 3]%nat)) as (Hthrow & _).
    apply Hthrow. split; [|split]; cbn; [lia|lia|discriminate].
  - destruct (Subtract_new_shape_check (T:=Q) (handle 0 [1; 1]%nat)
                (handle 1 [3; 2]%nat) (handle 2 [3; 2]%nat)) as (_ & _ & Hok).
    apply Hok. left. reflexivity.
Defined.

(** C6, as stated, fails: on the node that cached its divisor, object 2,
    two calls of release dispose that scalar twice, and the second call
    changes the world. *)
Lemma dispose_twice_disposes_twice :
  ∃ s, dySizeScalar (this bwd_left_done) = Some s ∧ ident s = 2%nat ∧
    disposals 2 (trace bwd_left_done) = 0%nat ∧
    disposals 2 (trace (dispose bwd_left_done).2) = 1%nat ∧
    disposals 2 (trace (andThen dispose dispose bwd_left_done).2) = 2%nat ∧
    (dispose (dispose bwd_left_done).2).2 ≠ (dispose bwd_left_done).2.
Proof.
  eexists (mkNDArray _ _ _).
  repeat (split; [vm_compute; reflexivity|]).
  intros Heq. apply (f_equal (λ w, length (trace w))) in Heq.
  vm_compute in Heq. discriminate Heq.
Qed.

(** C6 (amended) on the same node. *)
Lemma dispose_each_call_witness :
  dySizeScalar (this bwd_left_done) = Some (array 2 [] [4]) ∧
  (andThen dispose dispose bwd_left_done).1 = Ok tt ∧
  disposals 2 (trace (andThen dispose dispose bwd_left_done).2) = 2%nat.
Proof.
  assert (dySizeScalar (this bwd_left_done) = Some (array 2 [] [4])) as Hs
    by reflexivity.
  destruct (dispose_each_call bwd_left_done) as (_ & Hok & _ & Hsome).
  destruct (Hsome _ Hs) as (_ & _ & _ & Hn).
  split; [done|]. split; [done|]. exact Hn.
Defined.

(** C7 with a driver that asks for the right-hand gradient only. *)
Lemma backProp_skips_input_witness :
  ((handle 0 [3%nat] = t1 (this bwd_same) ∨
    handle 0 [3%nat] = t2 (this bwd_same)) ∧
   shouldBackProp (GraphUtil := right_only) (handle 0 [3%nat]) = false) ∧
  gradientArrays (backProp (graph_util := right_only) bwd_same).2 !! 0%nat
    = None.
Proof.
  assert (handle 0 [3%nat] = t1 (this bwd_same) ∨
          handle 0 [3%nat] = t2 (this bwd_same)) as Ht by (left; reflexivity).
  split; [done|].
  destruct (backProp_skips_input (graph_util := right_only) bwd_same
              (handle 0 [3%nat]) Ht eq_refl) as (new & _ & _ & Hsame).
  - cbn. lia.
  - exact Hsame.
Defined.

(** C8 on a node whose inputs and output gradient were never stored. *)
Lemma missing_entry_leaves_world_witness :
  (inferenceArrays unfed !! graph.id (t1 (this unfed)) = None ∧
   gradientArrays unfed !! graph.id (outTensor (this unfed)) = None) ∧
  feedForward unfed = (Throw MissingValueError, unfed) ∧
  backProp (graph_util := every_input) unfed =
    (Throw MissingGradientError, unfed).
Proof.
  split; [done|].
  destruct (missing_entry_leaves_world (graph_util := every_input) unfed)
    as [Hf Hb].
  split; [apply Hf; left; reflexivity | apply Hb; reflexivity].
Defined.

(** C9, as stated, fails: the backward call on a fresh node with a scalar
    left input allocates the divisor scalar, object 2, which is neither
    disposed nor handed to a value map. *)
Lemma cached_scalar_outlives_scope :
  (backProp (graph_util := every_input) bwd_left).1 = Ok tt ∧
  (nextId bwd_left ≤ 2 < nextId bwd_left_done)%nat ∧
  disposals 2 (trace bwd_left_done) = 0%nat ∧
  written 2 (trace bwd_left_done) = false ∧
  ¬ only_written_survive bwd_left bwd_left_done.
Proof.
  repeat (split; [vm_compute; (reflexivity || lia)|]).
  intros (new & Hem & Hall). unfold emitted in Hem.
  change (trace bwd_left) with (@nil (Event (T:=Q))) in Hem.
  rewrite app_nil_r in Hem. subst new.
  assert (nextId bwd_left ≤ 2 < nextId bwd_left_done)%nat as Hi
    by (vm_compute; lia).
  apply Hall in Hi. destruct Hi as [Hi _].
  specialize (Hi eq_refl). vm_compute in Hi. discriminate Hi.
Qed.

(** C9 (amended) on the forward world of [3,5] - [1,2] and on the backward
    world with a scalar left input. *)
Lemma scope_releases_temporaries_witness :
  (inferenceArrays fwd_same !! 0%nat = Some (array 0 [2%nat] [3; 5]) ∧
   inferenceArrays fwd_same !! 1%nat = Some (array 1 [2%nat] [1; 2]) ∧
   gradientArrays bwd_left !! 2%nat = Some twos ∧
   (ident twos < nextId bwd_left)%nat) ∧
  (∃ w', feedForward fwd_same = (Ok tt, w') ∧ only_written_survive fwd_same w') ∧
  (∃ w', backProp (graph_util := every_input) bwd_left = (Ok tt, w') ∧
         scopes w' = scopes bwd_left).
Proof.
  assert (ident twos < nextId bwd_left)%nat as Hfresh by (cbn; lia).
  split; [done|]. split.
  - destruct (scope_releases_temporaries (graph_util := every_input) fwd_same)
      as [Hf _].
    destruct (Hf _ _ eq_refl eq_refl) as (w' & Hrun & _ & Hsur). by exists w'.
  - destruct (scope_releases_temporaries (graph_util := every_input) bwd_left)
      as [_ Hb].
    destruct (Hb twos eq_refl Hfresh) as (w' & new & Hrun & Hsc & _).
    by exists w'.
Defined.

(** C5 at the shape [1,1]: it passes both tests and construction, [[5]]
    against [1,2,3] is broadcast in the forward call, and a left handle of
    that shape gets the mean of [2,2,2,2] in the backward call. *)
Lemma scalar_classifier_agrees_witness :
  (util.sizeFromShape [1; 1]%nat =? 1)%nat = util.isScalarShape [1; 1]%nat ∧
  util.isScalarShape [1; 1]%nat = true ∧
  is_ok (Subtract_new (T:=Q) (handle 0 [1; 1]%nat) (handle 1 [3; 2]%nat)
                      (handle 2 [3; 2]%nat)) = true ∧
  (∃ R w', feedForward fwd_rank2 = (Ok tt, w') ∧
     inferenceArrays w' !! 2%nat = Some R ∧
     shape R = [3%nat] ∧ values R = [4; 3; 2]) ∧
  (∃ w' (new : list Event) g,
     backProp (graph_util := every_input) bwd_rank2 = (Ok tt, w') ∧
     EvSet gradientMap 0 g ∈ new ∧ shape g = [] ∧ values g = [2]).
Proof.
  assert (cache_ok bwd_rank2) as Hc by (intros s Hs; discriminate Hs).
  destruct (scalar_classifier_agrees (T:=Q) (graph_util := every_input)
              [1; 1]%nat) as (Heq & _ & Hnew & _ & Hfwd & Hbwd).
  split; [exact Heq|]. split; [reflexivity|].
  split; [apply Hnew; [left|]; reflexivity|]. split.
  - destruct (Hfwd fwd_rank2 _ _ eq_refl eq_refl)
      as (R & w' & Hrun & Hl & Hleft & _).
    destruct (Hleft eq_refl eq_refl) as [Hs Hv].
    exists R, w'. split; [done|]. split; [done|]. split; [done|].
    by rewrite Hv.
  - destruct (Hbwd bwd_rank2 twos eq_refl Hc)
      as (w' & new & Hrun & _ & Hleft & _).
    destruct (Hleft eq_refl eq_refl) as (g & Hin & Hs & Hv).
    exists w', new, g. split; [done|]. split; [done|]. split; [done|].
    by rewrite Hv.
Defined.

(** C10 on the node that cached 4 and now meets a dy of two elements: the
    scalar stays, the left gradient is 4/4 and the call allocates three
    arrays, none of them a scalar for the divisor; and on a fresh node with
    two scalar inputs: one scalar, object 2, is created after the first sum
    and cached, among six allocations. *)
Lemma dySizeScalar_frozen_witness :
  (gradientArrays bwd_left_again !! graph.id (outTensor (this bwd_left_again))
     = Some (array 5 [2%nat] shorter) ∧
   cache_ok bwd_left_again ∧
   gradientArrays bwd_scalars !! graph.id (outTensor (this bwd_scalars))
     = Some (array 0 [] [3]) ∧
   cache_ok bwd_scalars) ∧
  (∃ w' g, backProp (graph_util := every_input) bwd_left_again = (Ok tt, w') ∧
     dySizeScalar (this w') = Some (array 2 [] [4]) ∧
     values g = [1] ∧ nextId w' = (nextId bwd_left_again + 3)%nat) ∧
  (∃ w' s, backProp (graph_util := every_input) bwd_scalars = (Ok tt, w') ∧
     dySizeScalar (this w') = Some s ∧ ident s = 2%nat ∧ values s = [1] ∧
     nextId w' = 7%nat).
Proof.
  assert (cache_ok bwd_left_again) as Hc by (intros s [= <-]; reflexivity).
  assert (cache_ok bwd_scalars) as Hc' by (intros s Hs; discriminate Hs).
  split; [done|]. split.
  - destruct (dySizeScalar_frozen (graph_util := every_input) bwd_left_again
                (array 5 [2%nat] shorter) eq_refl Hc)
      as (w' & new & Hrun & _ & _ & Hkeep & _ & Hn).
    destruct (Hkeep (array 2 [] [4]) eq_refl) as (Hs & H1 & _).
    destruct (H1 eq_refl eq_refl) as (g & _ & Hv).
    exists w', g. split; [done|]. split; [done|]. split; [by rewrite Hv|].
    exact Hn.
  - destruct (dySizeScalar_frozen (graph_util := every_input) bwd_scalars
                (array 0 [] [3]) eq_refl Hc')
      as (w' & new & Hrun & _ & _ & _ & Hnone & Hn).
    destruct (Hnone eq_refl) as (s & Hs & _ & Hv & _ & Hid & _).
    exists w', s. split; [done|]. split; [done|]. split; [exact Hid|].
    split; [by rewrite Hv|]. exact Hn.
Defined.

End instances.

(** * The further properties at concrete worlds *)

Section further_instances.
Import examples.
Open Scope Q_scope.

(** X1 at [1,2,3] - 2. *)
Lemma feedForward_frame_witness :
  (inferenceArrays fwd_right !! graph.id (t1 (this fwd_right))
     = Some (array 0 [3%nat] [1; 2; 3]) ∧
   inferenceArrays fwd_right !! graph.id (t2 (this fwd_right))
     = Some (array 1 [] [2])) ∧
  ∃ R w', feedForward fwd_right = (Ok tt, w') ∧ ident R = 2%nat ∧
    nextId w' = 3%nat ∧
    trace w' = [EvSet inferenceMap 2 R] ∧
    inferenceArrays w' !! 0%nat = Some (array 0 [3%nat] [1; 2; 3]).
Proof.
  split; [done|].
  destruct (feedForward_frame fwd_right _ _ eq_refl eq_refl)
    as (R & w' & Hrun & _ & _ & _ & Hid & Hn & Htr & Hk).
  exists R, w'. repeat (split; [done|]). apply (Hk 0%nat). cbn. lia.
Defined.

(** X2 at dy = [1,1,1]: the entry of the output handle stays. *)
Lemma backProp_frame_witness :
  inferenceArrays (backProp (graph_util := every_input) bwd_same).2 = ∅ ∧
  gradientArrays (backProp (graph_util := every_input) bwd_same).2 !! 2%nat
    = Some ones.
Proof.
  destruct (backProp_frame (graph_util := every_input) bwd_same)
    as (Hinf & _ & _ & _ & _ & Hk).
  split; [exact Hinf|]. apply (Hk 2%nat); cbn; lia.
Defined.

(** X3 at dy = [1,1,1] with a driver that asks for no gradient. *)
Lemma backProp_nothing_to_do_witness :
  (gradientArrays bwd_same !! graph.id (outTensor (this bwd_same)) = Some ones ∧
   shouldBackProp (GraphUtil := no_input) (t1 (this bwd_same)) = false ∧
   shouldBackProp (GraphUtil := no_input) (t2 (this bwd_same)) = false) ∧
  backProp (graph_util := no_input) bwd_same = (Ok tt, bwd_same).
Proof.
  split; [done|].
  exact (backProp_nothing_to_do (graph_util := no_input) bwd_same ones
           eq_refl eq_refl eq_refl).
Defined.

(** X4 on x - x with dy = [1,1,1]: the handle is left with [-1,-1,-1]. *)
Lemma backProp_same_handle_witness :
  (gradientArrays bwd_self !! graph.id (outTensor (this bwd_self)) = Some ones ∧
   cache_ok bwd_self ∧
   t1 (this bwd_self) = t2 (this bwd_self) ∧
   shouldBackProp (GraphUtil := every_input) (t1 (this bwd_self)) = true) ∧
  ∃ w' g, backProp (graph_util := every_input) bwd_self = (Ok tt, w') ∧
    gradientArrays w' !! 0%nat = Some g ∧ values g = [-1; -1; -1].
Proof.
  assert (cache_ok bwd_self) as Hc by (intros s Hs; discriminate Hs).
  split; [done|].
  destruct (backProp_same_handle (graph_util := every_input) bwd_self ones
              eq_refl Hc eq_refl eq_refl)
    as (w' & new & g1 & g2 & Hrun & _ & _ & _ & Hl & _ & Hv).
  exists w', g2. split; [done|]. split; [done|]. by rewrite Hv.
Defined.

(** X5 at [3,5] - [1,2], twice. *)
Lemma feedForward_twice_witness :
  (inferenceArrays fwd_same !! graph.id (t1 (this fwd_same))
     = Some (array 0 [2%nat] [3; 5]) ∧
   inferenceArrays fwd_same !! graph.id (t2 (this fwd_same))
     = Some (array 1 [2%nat] [1; 2]) ∧
   graph.id (outTensor (this fwd_same)) ≠ graph.id (t1 (this fwd_same)) ∧
   graph.id (outTensor (this fwd_same)) ≠ graph.id (t2 (this fwd_same))) ∧
  ∃ (R1 R2 : NDArray (T:=Q)) w',
    andThen feedForward feedForward fwd_same = (Ok tt, w') ∧
    inferenceArrays w' !! 2%nat = Some R2 ∧
    ident R1 = 2%nat ∧ ident R2 = 3%nat ∧
    disposals 2 (trace w') = 0%nat.
Proof.
  assert (graph.id (outTensor (this fwd_same)) ≠ graph.id (t1 (this fwd_same)))
    as H1 by (cbn; lia).
  assert (graph.id (outTensor (this fwd_same)) ≠ graph.id (t2 (this fwd_same)))
    as H2 by (cbn; lia).
  split; [done|].
  destruct (feedForward_twice fwd_same _ _ eq_refl eq_refl H1 H2)
    as (R1 & R2 & w' & Hrun & Hl & _ & _ & Hi1 & Hi2 & Htr).
  exists R1, R2, w'. repeat (split; [done|]). by rewrite Htr.
Defined.

(** X6 on the node that cached its divisor. *)
Lemma backProp_after_dispose_witness :
  dySizeScalar (this bwd_left_done) = Some (array 2 [] [4]) ∧
  dySizeScalar
    (this (andThen dispose (backProp (graph_util := every_input))
             bwd_left_done).2) = Some (array 2 [] [4]).
Proof.
  split; [reflexivity|].
  exact (proj1 (backProp_after_dispose (graph_util := every_input)
                  bwd_left_done (array 2 [] [4]) eq_refl)).
Defined.

(** X8 at 5 - [1,2,3]. *)
Lemma feedForward_of_constructed_witness :
  (is_ok (Subtract_new (T:=Q) (t1 (this fwd_left)) (t2 (this fwd_left))
            (outTensor (this fwd_left))) = true ∧
   well_formed (array 0 [] [5]) ∧ well_formed (array 1 [3%nat] [1; 2; 3])) ∧
  ∃ R w', feedForward fwd_left = (Ok tt, w') ∧
    inferenceArrays w' !! 2%nat = Some R ∧ well_formed R ∧ shape R = [3%nat].
Proof.
  assert (well_formed (array 0 [] [5])) as WA by reflexivity.
  assert (well_formed (array 1 [3%nat] [1; 2; 3])) as WB by reflexivity.
  split; [done|].
  destruct (feedForward_of_constructed fwd_left _ _ eq_refl eq_refl eq_refl
              eq_refl eq_refl WA WB) as (R & w' & Hrun & Hl & Hw & Hs).
  by exists R, w'.
Defined.

(** X9 at dy = [2,2,2,2] with a scalar left input: the one array disposed is
    the sum, object 1. *)
Lemma backProp_disposes_own_temporaries_witness :
  ∃ new, emitted bwd_left (backProp (graph_util := every_input) bwd_left).2 new ∧
    ∀ a, EvDispose a ∈ new → (1 ≤ ident a < 5)%nat.
Proof.
  exact (backProp_disposes_own_temporaries (graph_util := every_input) bwd_left).
Defined.

(** X11 at dy = [2,2,2,2] with a scalar left input. *)
Lemma backProp_twice_same_gradients_witness :
  (gradientArrays bwd_left !! graph.id (outTensor (this bwd_left)) = Some twos ∧
   cache_ok bwd_left ∧
   graph.id (outTensor (this bwd_left)) ≠ graph.id (t1 (this bwd_left)) ∧
   graph.id (outTensor (this bwd_left)) ≠ graph.id (t2 (this bwd_left))) ∧
  ∃ w1 w2, backProp (graph_util := every_input) bwd_left = (Ok tt, w1) ∧
    backProp (graph_util := every_input) w1 = (Ok tt, w2) ∧
    values <$> gradientArrays w2 !! 0%nat = values <$> gradientArrays w1 !! 0%nat.
Proof.
  assert (cache_ok bwd_left) as Hc by (intros s Hs; discriminate Hs).
  assert (graph.id (outTensor (this bwd_left)) ≠ graph.id (t1 (this bwd_left)))
    as H1 by (cbn; lia).
  assert (graph.id (outTensor (this bwd_left)) ≠ graph.id (t2 (this bwd_left)))
    as H2 by (cbn; lia).
  split; [done|].
  destruct (backProp_twice_same_gradients (graph_util := every_input)
              bwd_left twos eq_refl Hc H1 H2) as (w1 & w2 & Hr1 & Hr2 & Hk).
  exists w1, w2. split; [done|]. split; [done|]. apply (Hk 0%nat).
Defined.

(** X12 at dy = [2,2,2,2] with a scalar right input: -2 under handle 1. *)
Lemma backProp_gradient_closed_form_witness :
  (gradientArrays bwd_right !! graph.id (outTensor (this bwd_right)) = Some twos ∧
   cache_ok bwd_right) ∧
  ∃ w' g, backProp (graph_util := every_input) bwd_right = (Ok tt, w') ∧
    gradientArrays w' !! 1%nat = Some g ∧ shape g = [] ∧ values g = [-2].
Proof.
  assert (cache_ok bwd_right) as Hc by (intros s Hs; discriminate Hs).
  split; [done|].
  destruct (backProp_gradient_closed_form (graph_util := every_input)
              bwd_right twos eq_refl Hc) as (w' & Hrun & Hk).
  specialize (Hk 1%nat). cbn in Hk. destruct Hk as (g & Hl & Hs & Hv).
  exists w', g. split; [done|]. split; [done|]. split; [done|]. by rewrite Hv.
Defined.

End further_instances.
